(** * Sony Bloggie donut-to-panorama unwarper: the map builder and the unwarp
    driver of [bloggie_unwarper_GUI.py], embedded and verified.

    Numeric conventions of the embedding.
    - The NumPy arrays of [build_map] hold float32 values and the scalar
      parameters are Python floats.  Their arithmetic is idealised as exact
      arithmetic on [R]: the statements about the map are statements about the
      formulas the code evaluates, not about rounding errors.
    - The panorama height [int(round(unw_w / ASPECT))] is an integer decided by
      a rounding, so it is computed with IEEE binary64 floats exactly as
      CPython does (primitive floats of the kernel). *)

From Stdlib Require Import String.
From Stdlib Require Import ZArith List Bool Reals Lra Lia Floats.
Import ListNotations.

(* ================================================================= *)
(** ** NumPy fragments used by [build_map] *)

Module Np.

Open Scope R_scope.

(** [np.arange(n, dtype=np.float32)]: the values 0, 1, ..., n-1; empty when
    [n <= 0]. *)
Definition arange (n : Z) : list R :=
  map INR (seq 0 (Z.to_nat n)).

(** Element-wise operation on one array. *)
Definition ufunc (f : R -> R) (a : list R) : list R := map f a.

(** Broadcasting of a column of shape (h,1) against a row of shape (1,w):
    the result has shape (h,w) and entry [y][x] is [f col[y] row[x]]. *)
Definition broadcast (f : R -> R -> R) (col row : list R) : list (list R) :=
  map (fun c => map (fun r => f c r) row) col.

(** [a[y, x]] of a two-dimensional array. *)
Definition item (a : list (list R)) (y x : Z) : R :=
  nth (Z.to_nat x) (nth (Z.to_nat y) a []) 0.

(** [a.shape == (h, w)]: [h] rows, every one of [w] entries. *)
Definition has_shape {A : Type} (a : list (list A)) (h w : nat) : Prop :=
  length a = h /\ Forall (fun row => length row = w) a.

End Np.

(* ================================================================= *)
(** ** The map builder (lines 12-24) *)

Open Scope R_scope.

Definition Y_WARP_A : R := 1850 / 10000.
Definition Y_WARP_B : R := 8184 / 10000.
Definition Y_WARP_C : R := - (28 / 10000).

(** A coordinate map: the pair [(map_x, map_y)]. *)
Definition CoordinateMap : Type := (list (list R) * list (list R))%type.

(** [build_map(unw_w, unw_h, cx, cy, rmin, rmax, shift, yA, yB, yC)], one
    binding per line of the source. *)
Definition build_map (unw_w unw_h : Z) (cx cy rmin rmax shift yA yB yC : R)
  : CoordinateMap :=
  let xs := Np.arange unw_w in
  let ys := Np.arange unw_h in
  let y := Np.ufunc (fun v => v / IZR unw_h) ys in
  let yfrac := Np.ufunc (fun t => yA * (t ^ 2) + yB * t + yC) y in
  let radius := Np.ufunc (fun f => (f * (rmax - rmin)) + rmin) yfrac in
  let angle := Np.ufunc (fun v => (0 - (v / IZR unw_w) * (2 * PI)) + shift) xs in
  let map_x := Np.broadcast (fun r a => cx + r * cos a) radius angle in
  let map_y := Np.broadcast (fun r a => cy + r * sin a) radius angle in
  (map_x, map_y).

(** The call [build_map(unw_w, unw_h, cx, cy, rmin, rmax, shift)] of [unwarp]:
    the curve coefficients take their default values. *)
Definition build_map_default (unw_w unw_h : Z) (cx cy rmin rmax shift : R)
  : CoordinateMap :=
  build_map unw_w unw_h cx cy rmin rmax shift Y_WARP_A Y_WARP_B Y_WARP_C.

(* ================================================================= *)
(** ** Rasters *)

(** A BGR pixel, as [cv2.imread(path, cv2.IMREAD_COLOR)] yields them.  The
    channel samples are kept as reals (the sample depth plays no role). *)
Record Pixel : Type := mkPixel { blue : R; green : R; red : R }.

(** A raster is a list of rows; [img.shape[:2]] is [(rows, cols)]. *)
Definition Raster : Type := list (list Pixel).

Definition rows (s : Raster) : Z := Z.of_nat (length s).
Definition cols (s : Raster) : Z := Z.of_nat (length (hd [] s)).

Definition zero_area (s : Raster) : Prop := rows s = 0%Z \/ cols s = 0%Z.

Definition zero_areab (s : Raster) : bool :=
  ((rows s =? 0)%Z || (cols s =? 0)%Z)%bool.

(** Has the two-dimensional array no entry at all? *)
Definition no_entries {A : Type} (a : list (list A)) : bool :=
  match concat a with
  | [] => true
  | _ :: _ => false
  end.

(** The scalar [0] used as [borderValue]: every channel zero. *)
Definition zero_pixel : Pixel := mkPixel 0 0 0.

Definition pix_add (p q : Pixel) : Pixel :=
  mkPixel (blue p + blue q) (green p + green q) (red p + red q).

Definition pix_scale (k : R) (p : Pixel) : Pixel :=
  mkPixel (k * blue p) (k * green p) (k * red p).

Definition pix_sum (l : list Pixel) : Pixel := fold_right pix_add zero_pixel l.

(** Is the integer position [(ix, iy)] a pixel of the raster? *)
Definition inside (s : Raster) (ix iy : Z) : bool :=
  ((0 <=? ix)%Z && (ix <? cols s)%Z && (0 <=? iy)%Z && (iy <? rows s)%Z)%bool.

Definition pixel_at (s : Raster) (ix iy : Z) : Pixel :=
  nth (Z.to_nat ix) (nth (Z.to_nat iy) s []) zero_pixel.

(** Is the real position [(x, y)] within [[0, cols) x [0, rows)]? *)
Definition coord_inside (s : Raster) (x y : R) : Prop :=
  0 <= x < IZR (cols s) /\ 0 <= y < IZR (rows s).

(* ================================================================= *)
(** ** Exceptions *)

(** The exceptions of the modelled code: [OverflowError] and [ValueError] of
    the Python scalars of line 27; [EmptySource], the rejection of a
    zero-area source by the resampler (sections 4.2 and 7 of the spec);
    [cv2_error], an argument check of an OpenCV function that fails. *)
Inductive PyExn : Type := OverflowError | ValueError | EmptySource | cv2_error.

Inductive result (A : Type) : Type :=
| Ok (a : A)
| Raise (e : PyExn).
Arguments Ok {A} a.
Arguments Raise {A} e.

Definition bind {A B : Type} (m : result A) (k : A -> result B) : result B :=
  match m with
  | Ok a => k a
  | Raise e => Raise e
  end.

Notation "x <- m ;; k" := (bind m (fun x => k))
  (at level 61, m at next level, right associativity).

Definition raised {A : Type} (m : result A) : bool :=
  match m with
  | Ok _ => false
  | Raise _ => true
  end.

(* ================================================================= *)
(** ** The resampling routine [cv2.remap] *)

Inductive Interpolation : Type := INTER_NEAREST | INTER_CUBIC.
Inductive BorderMode : Type := BORDER_CONSTANT | BORDER_REPLICATE.

(** The arguments of one call [cv2.remap(src, map1, map2, interpolation=...,
    borderMode=..., borderValue=...)]. *)
Record RemapCall : Type := mkRemapCall {
  call_src : Raster;
  call_map1 : list (list R);
  call_map2 : list (list R);
  call_interpolation : Interpolation;
  call_borderMode : BorderMode;
  call_borderValue : Pixel
}.

(** Largest integer not above [x]. *)
Definition cvFloor (x : R) : Z := Int_part x.

(** Nearest integer, a tie going to the even neighbour. *)
Definition cvRound (x : R) : Z :=
  let f := Int_part x in
  let d := x - IZR f in
  if Rlt_dec d (1 / 2) then f
  else if Rlt_dec (1 / 2) d then (f + 1)%Z
  else if Z.even f then f else (f + 1)%Z.

Definition clamp (lo hi v : Z) : Z := Z.max lo (Z.min hi v).

(** The source sample at an integer position under a border policy: inside
    the raster the pixel itself; outside, the border value (constant border)
    or the nearest edge pixel (replicated border). *)
Definition fetch (bm : BorderMode) (bv : Pixel) (s : Raster) (ix iy : Z) : Pixel :=
  if inside s ix iy then pixel_at s ix iy
  else match bm with
       | BORDER_CONSTANT => bv
       | BORDER_REPLICATE =>
           pixel_at s (clamp 0 (cols s - 1) ix) (clamp 0 (rows s - 1) iy)
       end.

Section Resampler.

(** The interpolation kernel of the smooth mode: [kernel f i] is the weight
    of tap [i] (0..3) of a 4-tap row at fractional offset [f].  The
    statements hold for every kernel, so it stays a parameter. *)
Variable kernel : R -> nat -> R.

Definition sample_nearest (bm : BorderMode) (bv : Pixel) (s : Raster)
           (x y : R) : Pixel :=
  fetch bm bv s (cvRound x) (cvRound y).

(** The 4x4 neighbourhood around [(x, y)]: columns [floor x - 1 .. floor x + 2],
    rows [floor y - 1 .. floor y + 2], every tap weighted by the product of
    its row and column weights. *)
Definition sample_cubic (bm : BorderMode) (bv : Pixel) (s : Raster)
           (x y : R) : Pixel :=
  let x0 := cvFloor x in
  let y0 := cvFloor y in
  let fx := x - IZR x0 in
  let fy := y - IZR y0 in
  pix_sum
    (map (fun j =>
            pix_sum
              (map (fun i =>
                      pix_scale (kernel fy j * kernel fx i)
                        (fetch bm bv s (x0 - 1 + Z.of_nat i)
                                       (y0 - 1 + Z.of_nat j)))
                   (seq 0 4)))
         (seq 0 4)).

Definition sample (mode : Interpolation) (bm : BorderMode) (bv : Pixel)
           (s : Raster) (x y : R) : Pixel :=
  match mode with
  | INTER_NEAREST => sample_nearest bm bv s x y
  | INTER_CUBIC => sample_cubic bm bv s x y
  end.

(** The per-pixel loop: one output pixel per map entry, sampled at the
    entry's coordinates. *)
Definition remap_pixels (c : RemapCall) : Raster :=
  map (fun rr =>
         map (fun xy =>
                sample (call_interpolation c) (call_borderMode c)
                       (call_borderValue c) (call_src c) (fst xy) (snd xy))
             (combine (fst rr) (snd rr)))
      (combine (call_map1 c) (call_map2 c)).

(** Modelled from the spec: [cv2.remap] is OpenCV library code, which the
    repository calls and does not contain.  The model follows section 4.2.
    A zero-area source is rejected with [EmptySource] before the per-pixel
    loop is entered (the failure mode of section 4.2).  A map without entries
    is outside the contract (section 6 gives the resampler maps of positive
    dimensions only); the library's argument check refuses it and so does
    the model.  Otherwise the loop runs: nearest mode rounds both coordinates
    and reads that pixel; smooth mode blends the 4x4 neighbourhood; a
    position outside the source is read under the border policy of the
    call. *)
Definition cv2_remap (c : RemapCall) : result Raster :=
  if zero_areab (call_src c) then Raise EmptySource
  else if no_entries (call_map1 c) then Raise cv2_error
  else Ok (remap_pixels c).

End Resampler.

(* ================================================================= *)
(** ** Python scalars of [unwarp] (line 27) *)

(** [ASPECT = 360.0 / 55.0], a binary64 value. *)
Definition ASPECT : float := (360 / 55)%float.

(** Conversion of a Python [int] to [float]: correctly rounded, and an
    [OverflowError] when the integer is too large. *)
Definition py_float_of_int (n : Z) : result float :=
  match binary_normalize prec emax n 0 false with
  | S754_infinity _ => Raise OverflowError
  | sf => Ok (SF2Prim sf)
  end.

(** [n / d] for an [int] n and a nonzero [float] d. *)
Definition py_truediv_int_float (n : Z) (d : float) : result float :=
  x <- py_float_of_int n ;;
  Ok (x / d)%float.

(** [round(x)] of a float: the nearest integer, a tie going to the even
    neighbour; infinities and NaN raise. *)
Definition py_round (x : float) : result Z :=
  match Prim2SF x with
  | S754_zero _ => Ok 0%Z
  | S754_finite s m e =>
      let mag :=
        match e with
        | Z0 => Zpos m
        | Zpos p => (Zpos m * 2 ^ Zpos p)%Z
        | Zneg p =>
            let d := (2 ^ Zpos p)%Z in
            let q := (Zpos m / d)%Z in
            let r := (Zpos m mod d)%Z in
            if (2 * r <? d)%Z then q
            else if (d <? 2 * r)%Z then (q + 1)%Z
            else if Z.even q then q else (q + 1)%Z
        end in
      Ok (if s then (- mag)%Z else mag)
  | S754_infinity _ => Raise OverflowError
  | S754_nan => Raise ValueError
  end.

(** [unw_h = int(round(unw_w / ASPECT))]. *)
Definition unw_h_of (unw_w : Z) : result Z :=
  q <- py_truediv_int_float unw_w ASPECT ;;
  py_round q.

(* ================================================================= *)
(** ** [unwarp] (lines 26-30) *)

(** [interp == "nearest"] selects the nearest mode, anything else the cubic
    one. *)
Definition interp_mode (interp : string) : Interpolation :=
  if String.eqb interp "nearest" then INTER_NEAREST else INTER_CUBIC.

(** Lines 27-29 and the argument list of line 30: what [unwarp] hands to
    [cv2.remap], or the exception its own statements raise. *)
Definition unwarp_call (img_bgr : Raster) (unw_w : Z)
           (cx cy rmin rmax shift_rad : R) (interp : string)
  : result RemapCall :=
  unw_h <- unw_h_of unw_w ;;
  let '(mx, my) := build_map_default unw_w unw_h cx cy rmin rmax shift_rad in
  let mode := interp_mode interp in
  Ok (mkRemapCall img_bgr mx my mode BORDER_CONSTANT zero_pixel).

Definition unwarp (kernel : R -> nat -> R) (img_bgr : Raster) (unw_w : Z)
           (cx cy rmin rmax shift_rad : R) (interp : string)
  : result Raster :=
  c <- unwarp_call img_bgr unw_w cx cy rmin rmax shift_rad interp ;;
  cv2_remap kernel c.

(* ================================================================= *)
(** ** Auxiliary definitions of the statements *)

(** The integers [lo, lo+1, ..., lo+n-1]. *)
Fixpoint zrange (lo : Z) (n : nat) : list Z :=
  match n with
  | O => []
  | S k => lo :: zrange (lo + 1) k
  end.

(** The nearest integer of 11*w/72, that is of w / (360/55) in exact
    arithmetic, a tie going to the even neighbour. *)
Definition exact_height (w : Z) : Z :=
  let q := (11 * w / 72)%Z in
  let r := (11 * w mod 72)%Z in
  if (2 * r <? 72)%Z then q
  else if (72 <? 2 * r)%Z then (q + 1)%Z
  else if Z.even q then q else (q + 1)%Z.

(** The widths up to 10000 at which the binary64 quotient falls just below a
    half-integer that the exact quotient hits. *)
Definition float_ties_low : list Z :=
  [756; 1620; 3060; 3204; 3348; 6084; 6228; 6372; 6516; 6660]%Z.

Definition expected_height (w : Z) : Z :=
  if existsb (Z.eqb w) float_ties_low then (exact_height w - 1)%Z
  else exact_height w.

Definition exactness_check (w : Z) : bool :=
  match unw_h_of w with
  | Ok h => ((h =? expected_height w)%Z
             && (-36 <=? 72 * h - 11 * w)%Z && (72 * h - 11 * w <=? 36)%Z)%bool
  | Raise _ => false
  end.

(** The cubic convolution weights with parameter -3/4: one instance of the
    kernel parameter of the resampler. *)
Definition cubic_coeffs (f : R) (i : nat) : R :=
  let A := - (3 / 4) in
  let c0 := ((A * (f + 1) - 5 * A) * (f + 1) + 8 * A) * (f + 1) - 4 * A in
  let c1 := ((A + 2) * f - (A + 3)) * f * f + 1 in
  let c2 := ((A + 2) * (1 - f) - (A + 3)) * (1 - f) * (1 - f) + 1 in
  match i with
  | O => c0
  | S O => c1
  | S (S O) => c2
  | _ => 1 - c0 - c1 - c2
  end.

(** A 2x2 test raster. *)
Definition white : Pixel := mkPixel 255 255 255.
Definition sample_raster : Raster := [[white; white]; [white; white]].

(* ================================================================= *)
(** ** The window [BloggieGUI] (lines 39-229)

    The state is the attributes of the object together with the part of Tk
    they interact with: the queue of callbacks registered with [after] and
    the panorama shown in the right label.  Widgets, dialogs and drawing are
    left out. *)

Module BloggieGUI.

Record Gui : Type := mkGui {
  img_bgr : option Raster;       (* [None] until an image is loaded *)
  h : Z;
  w : Z;
  cx : R;
  cy : R;
  rmin : R;
  rmax : R;
  pano_w : Z;
  shift_deg : R;
  interp : string;
  _pending : option nat;         (* id returned by [after], or [None] *)
  _dragging : bool;
  after_queue : list nat;        (* callbacks of [_refresh_impl] not yet run *)
  after_next : nat;              (* next id [after] hands out *)
  right_pano : option Raster     (* panorama shown in the right label *)
}.

(** [__init__] (lines 46-61). *)
Definition init : Gui :=
  mkGui None 0 0 0 0 0 0 1200 0 "nearest" None false [] 0 None.

Definition set_pending (g : Gui) (p : option nat) : Gui :=
  mkGui (img_bgr g) (h g) (w g) (cx g) (cy g) (rmin g) (rmax g) (pano_w g)
        (shift_deg g) (interp g) p (_dragging g) (after_queue g)
        (after_next g) (right_pano g).

Definition set_dragging (g : Gui) (d : bool) : Gui :=
  mkGui (img_bgr g) (h g) (w g) (cx g) (cy g) (rmin g) (rmax g) (pano_w g)
        (shift_deg g) (interp g) (_pending g) d (after_queue g)
        (after_next g) (right_pano g).

Definition set_cx (g : Gui) (v : R) : Gui :=
  mkGui (img_bgr g) (h g) (w g) v (cy g) (rmin g) (rmax g) (pano_w g)
        (shift_deg g) (interp g) (_pending g) (_dragging g) (after_queue g)
        (after_next g) (right_pano g).

Definition set_cy (g : Gui) (v : R) : Gui :=
  mkGui (img_bgr g) (h g) (w g) (cx g) v (rmin g) (rmax g) (pano_w g)
        (shift_deg g) (interp g) (_pending g) (_dragging g) (after_queue g)
        (after_next g) (right_pano g).

Definition set_right (g : Gui) (r : option Raster) : Gui :=
  mkGui (img_bgr g) (h g) (w g) (cx g) (cy g) (rmin g) (rmax g) (pano_w g)
        (shift_deg g) (interp g) (_pending g) (_dragging g) (after_queue g)
        (after_next g) r.

(** [self.after(30, self._refresh_impl)]: the callback joins the queue and
    its id is returned. *)
Definition after (g : Gui) : Gui * nat :=
  (mkGui (img_bgr g) (h g) (w g) (cx g) (cy g) (rmin g) (rmax g) (pano_w g)
         (shift_deg g) (interp g) (_pending g) (_dragging g)
         (after_queue g ++ [after_next g]) (S (after_next g)) (right_pano g),
   after_next g).

(** [math.radians]. *)
Definition radians (deg : R) : R := deg * (PI / 180).

(** [round(x, 2)]: the nearest multiple of 1/100, a tie going to the even
    one. *)
Definition round2 (x : R) : R := IZR (cvRound (x * 100)) / 100.

Section Render.

Variable kernel : R -> nat -> R.

(** [_compute_pano] (lines 197-202), for a loaded image. *)
Definition _compute_pano (g : Gui) (img : Raster) : result Raster :=
  unwarp kernel img (pano_w g) (cx g) (cy g) (rmin g) (rmax g)
         (radians (shift_deg g)) (interp g).

(** [_draw_left_overlay] (lines 204-213), as far as it can fail: the radii
    are rounded to integers, [int(round(...))], and [cv2.circle] refuses a
    negative radius.  The outer circle is drawn before the inner one.  The
    drawn image itself goes to the left label and is not modelled. *)
Definition _draw_left_overlay (g : Gui) : result unit :=
  let rin := cvRound (rmin g) in
  let rout := cvRound (rmax g) in
  if (rout <? 0)%Z then Raise cv2_error
  else if (rin <? 0)%Z then Raise cv2_error
  else Ok tt.

(** [_refresh_impl] (lines 221-229).  An exception of [_draw_left_overlay]
    or of [_compute_pano] leaves the callback before the right label is
    updated. *)
Definition _refresh_impl (g : Gui) : Gui :=
  let g1 := set_pending g None in
  match img_bgr g1 with
  | None => g1
  | Some img =>
      match _draw_left_overlay g1 with
      | Raise _ => g1
      | Ok _ =>
          match _compute_pano g1 img with
          | Ok pano => set_right g1 (Some pano)
          | Raise _ => g1
          end
      end
  end.

(** [refresh] (lines 215-219). *)
Definition refresh (force : bool) (g : Gui) : Gui :=
  if negb force then
    match _pending g with
    | Some _ => g
    | None => let (g1, id) := after g in set_pending g1 (Some id)
    end
  else _refresh_impl g.

(** Tk runs the oldest callback registered with [after]. *)
Definition run_after (g : Gui) : Gui :=
  match after_queue g with
  | [] => g
  | _ :: rest =>
      _refresh_impl
        (mkGui (img_bgr g) (h g) (w g) (cx g) (cy g) (rmin g) (rmax g)
               (pano_w g) (shift_deg g) (interp g) (_pending g) (_dragging g)
               rest (after_next g) (right_pano g))
  end.

(** [load_image] (lines 134-150).  [chosen] is what the file dialog and
    [cv2.imread] give: [None] when the dialog is cancelled, [Some None] when
    the file cannot be decoded, [Some (Some img)] otherwise. *)
Definition load_image (chosen : option (option Raster)) (g : Gui) : Gui :=
  match chosen with
  | None => g
  | Some None => g
  | Some (Some img) =>
      let ih := rows img in
      let iw := cols img in
      refresh true
        (mkGui (Some img) ih iw
               (if (1400 <? iw)%Z then 13145 / 10 else IZR iw / 2)
               (if (1000 <? ih)%Z then 99725 / 100 else IZR ih / 2)
               (IZR ih / 2 * (16 / 100))
               (IZR ih / 2 * (72 / 100))
               1200 0 "nearest"
               (_pending g) (_dragging g) (after_queue g) (after_next g)
               (right_pano g))
  end.

(** The display-to-image conversion of [_update_center_from_click]
    (lines 179-184) for a click at [(ex, ey)] on an image of [iw] x [ih]
    pixels; [None] is the [ZeroDivisionError] of a zero dimension. *)
Definition click_to_image (iw ih ex ey : Z) : option (R * R) :=
  if ((iw =? 0)%Z || (ih =? 0)%Z)%bool then None
  else
    let disp_w := 600 in
    let disp_h := 600 in
    let scale := Rmin (disp_w / IZR iw) (disp_h / IZR ih) in
    let img_w := IZR iw * scale in
    let img_h := IZR ih * scale in
    let off_x := (disp_w - img_w) / 2 in
    let off_y := (disp_h - img_h) / 2 in
    let x := (IZR ex - off_x) / scale in
    let y := (IZR ey - off_y) / scale in
    let x := Rmax 0 (Rmin (IZR (iw - 1)) x) in
    let y := Rmax 0 (Rmin (IZR (ih - 1)) y) in
    Some (x, y).

(** [_update_center_from_click] (lines 177-185). *)
Definition _update_center_from_click (g : Gui) (ex ey : Z) : option Gui :=
  match img_bgr g with
  | None => Some g
  | Some _ =>
      match click_to_image (w g) (h g) ex ey with
      | None => None
      | Some (x, y) =>
          Some (refresh false (set_cy (set_cx g (round2 x)) (round2 y)))
      end
  end.

(** [_start_drag], [_drag], [_stop_drag] (lines 173-175). *)
Definition _start_drag (g : Gui) (ex ey : Z) : option Gui :=
  _update_center_from_click (set_dragging g true) ex ey.

Definition _drag (g : Gui) (ex ey : Z) : option Gui :=
  if _dragging g then _update_center_from_click g ex ey else Some g.

Definition _stop_drag (g : Gui) : Gui := set_dragging g false.

(** [_on_key] (lines 187-194): four independent tests of the key symbol, then
    a refresh. *)
Definition _on_key (g : Gui) (keysym : string) : Gui :=
  match img_bgr g with
  | None => g
  | Some _ =>
      let step := 25 / 100 in
      let g1 := if String.eqb keysym "Left" then set_cx g (cx g - step) else g in
      let g2 := if String.eqb keysym "Right" then set_cx g1 (cx g1 + step) else g1 in
      let g3 := if String.eqb keysym "Up" then set_cy g2 (cy g2 - step) else g2 in
      let g4 := if String.eqb keysym "Down" then set_cy g3 (cy g3 + step) else g3 in
      refresh false g4
  end.

(** The events the window reacts to, apart from loading an image: the
    parameter widgets and the slider call [refresh]; Tk runs a callback
    registered with [after]; keys and mouse buttons. *)
Inductive event : Type :=
| EvRefresh
| EvTimer
| EvKey (keysym : string)
| EvPress (ex ey : Z)
| EvMotion (ex ey : Z)
| EvRelease.

(** One event; an exception inside a handler leaves the state as it was. *)
Definition step (g : Gui) (e : event) : Gui :=
  match e with
  | EvRefresh => refresh false g
  | EvTimer => run_after g
  | EvKey k => _on_key g k
  | EvPress ex ey =>
      match _start_drag g ex ey with
      | Some g' => g'
      | None => set_dragging g true
      end
  | EvMotion ex ey =>
      match _drag g ex ey with
      | Some g' => g'
      | None => g
      end
  | EvRelease => _stop_drag g
  end.

Definition run (g : Gui) (es : list event) : Gui := fold_left step es g.

End Render.

(** The image and the parameters of the transform agree in two states. *)
Definition same_parameters (g g' : Gui) : Prop :=
  img_bgr g' = img_bgr g /\ h g' = h g /\ w g' = w g /\
  cx g' = cx g /\ cy g' = cy g /\ rmin g' = rmin g /\ rmax g' = rmax g /\
  pano_w g' = pano_w g /\ shift_deg g' = shift_deg g /\ interp g' = interp g.

(** At most one callback of [_refresh_impl] is outstanding, and [_pending]
    names it. *)
Definition debounced (g : Gui) : Prop :=
  (_pending g = None /\ after_queue g = []) \/
  (exists id : nat, _pending g = Some id /\ after_queue g = [id]).

End BloggieGUI.

(** A window state with the 2x2 test raster loaded. *)
Definition example_gui : BloggieGUI.Gui :=
  BloggieGUI.mkGui (Some sample_raster) 2 2 1 1 (16 / 100) (72 / 100)
                   1200 0 "nearest" None false [] 0 None.

(* ================================================================= *)
(** ** Theorems *)

(** *** Lists and arrays *)

Lemma nth_arange (n : Z) (k : nat) :
  (k < Z.to_nat n)%nat -> nth k (Np.arange n) 0 = INR k.
Proof.
  intro Hk. unfold Np.arange.
  rewrite (nth_indep _ 0 (INR 0)) by (rewrite length_map, length_seq; exact Hk).
  rewrite map_nth, seq_nth by exact Hk. reflexivity.
Qed.

Lemma length_arange (n : Z) : length (Np.arange n) = Z.to_nat n.
Proof. unfold Np.arange. now rewrite length_map, length_seq. Qed.

Lemma nth_ufunc (f : R -> R) (a : list R) (k : nat) :
  (k < length a)%nat -> nth k (Np.ufunc f a) 0 = f (nth k a 0).
Proof.
  intro Hk. unfold Np.ufunc.
  rewrite (nth_indep _ 0 (f 0)) by (now rewrite length_map).
  apply map_nth.
Qed.

Lemma length_ufunc (f : R -> R) (a : list R) :
  length (Np.ufunc f a) = length a.
Proof. apply length_map. Qed.

Lemma item_broadcast (f : R -> R -> R) (col row : list R) (y x : Z) :
  (0 <= y < Z.of_nat (length col))%Z ->
  (0 <= x < Z.of_nat (length row))%Z ->
  Np.item (Np.broadcast f col row) y x =
  f (nth (Z.to_nat y) col 0) (nth (Z.to_nat x) row 0).
Proof.
  intros Hy Hx. unfold Np.item, Np.broadcast.
  assert (Hy' : (Z.to_nat y < length col)%nat) by lia.
  assert (Hx' : (Z.to_nat x < length row)%nat) by lia.
  rewrite (nth_indep _ [] ((fun c => map (fun r => f c r) row) 0))
    by (now rewrite length_map).
  rewrite (map_nth (fun c => map (fun r => f c r) row)).
  rewrite (nth_indep _ 0 (f (nth (Z.to_nat y) col 0) 0))
    by (now rewrite length_map).
  apply (map_nth (fun r => f (nth (Z.to_nat y) col 0) r)).
Qed.

Lemma broadcast_shape (f : R -> R -> R) (col row : list R) :
  Np.has_shape (Np.broadcast f col row) (length col) (length row).
Proof.
  unfold Np.has_shape, Np.broadcast. split.
  - apply length_map.
  - apply Forall_forall. intros r Hr.
    apply in_map_iff in Hr. destruct Hr as [c [<- _]]. apply length_map.
Qed.

Lemma INR_to_nat (z : Z) : (0 <= z)%Z -> INR (Z.to_nat z) = IZR z.
Proof. intro Hz. rewrite INR_IZR_INZ. now rewrite Z2Nat.id. Qed.

(** *** The map builder *)

(** Entry [y][x] of both maps, written with the operations in the order of
    the source. *)
Lemma build_map_item (unw_w unw_h : Z) (cx cy rmin rmax shift yA yB yC : R)
      (x y : Z) :
  (0 <= x < unw_w)%Z -> (0 <= y < unw_h)%Z ->
  let t := IZR y / IZR unw_h in
  let radius := ((yA * (t ^ 2) + yB * t + yC) * (rmax - rmin)) + rmin in
  let angle := (0 - (IZR x / IZR unw_w) * (2 * PI)) + shift in
  Np.item (fst (build_map unw_w unw_h cx cy rmin rmax shift yA yB yC)) y x
    = cx + radius * cos angle /\
  Np.item (snd (build_map unw_w unw_h cx cy rmin rmax shift yA yB yC)) y x
    = cy + radius * sin angle.
Proof.
  intros Hx Hy t radius angle. unfold build_map. cbn [fst snd].
  assert (Hyn : (Z.to_nat y < Z.to_nat unw_h)%nat) by lia.
  assert (Hxn : (Z.to_nat x < Z.to_nat unw_w)%nat) by lia.
  rewrite !item_broadcast
    by (rewrite !length_ufunc, length_arange; lia).
  rewrite !nth_ufunc
    by (rewrite ?length_ufunc, length_arange; assumption).
  rewrite !nth_arange by assumption.
  rewrite !INR_to_nat by lia.
  split; reflexivity.
Qed.

Lemma build_map_shape (unw_w unw_h : Z) (cx cy rmin rmax shift yA yB yC : R) :
  Np.has_shape (fst (build_map unw_w unw_h cx cy rmin rmax shift yA yB yC))
               (Z.to_nat unw_h) (Z.to_nat unw_w) /\
  Np.has_shape (snd (build_map unw_w unw_h cx cy rmin rmax shift yA yB yC))
               (Z.to_nat unw_h) (Z.to_nat unw_w).
Proof.
  unfold build_map. cbn [fst snd].
  split.
  - match goal with
    | |- Np.has_shape (Np.broadcast ?f ?c ?r) _ _ =>
        replace (Z.to_nat unw_h) with (length c)
          by (now rewrite !length_ufunc, length_arange);
        replace (Z.to_nat unw_w) with (length r)
          by (now rewrite !length_ufunc, length_arange);
        apply broadcast_shape
    end.
  - match goal with
    | |- Np.has_shape (Np.broadcast ?f ?c ?r) _ _ =>
        replace (Z.to_nat unw_h) with (length c)
          by (now rewrite !length_ufunc, length_arange);
        replace (Z.to_nat unw_w) with (length r)
          by (now rewrite !length_ufunc, length_arange);
        apply broadcast_shape
    end.
Qed.

(** The same entries with the angle written as -(x/w)*2*pi + shift. *)
Lemma build_map_entry (unw_w unw_h : Z) (cx cy rmin rmax shift yA yB yC : R)
      (x y : Z) :
  (0 <= x < unw_w)%Z -> (0 <= y < unw_h)%Z ->
  Np.item (fst (build_map unw_w unw_h cx cy rmin rmax shift yA yB yC)) y x
    = cx + ((yA * (IZR y / IZR unw_h) ^ 2 + yB * (IZR y / IZR unw_h) + yC)
            * (rmax - rmin) + rmin)
           * cos (- (IZR x / IZR unw_w) * (2 * PI) + shift) /\
  Np.item (snd (build_map unw_w unw_h cx cy rmin rmax shift yA yB yC)) y x
    = cy + ((yA * (IZR y / IZR unw_h) ^ 2 + yB * (IZR y / IZR unw_h) + yC)
            * (rmax - rmin) + rmin)
           * sin (- (IZR x / IZR unw_w) * (2 * PI) + shift).
Proof.
  intros Hx Hy.
  destruct (build_map_item unw_w unw_h cx cy rmin rmax shift yA yB yC x y Hx Hy)
    as [Ex Ey].
  cbv zeta in Ex, Ey. rewrite Ex, Ey.
  replace (0 - IZR x / IZR unw_w * (2 * PI) + shift)
    with (- (IZR x / IZR unw_w) * (2 * PI) + shift) by ring.
  split; reflexivity.
Qed.

(** C1: for every destination pixel (x, y) with 0 <= x < destWidth and
    0 <= y < destHeight, the map holds mapX = centerX + radius*cos(angle) and
    mapY = centerY + radius*sin(angle), where t = y / destHeight,
    frac = A*t^2 + B*t + C, radius = frac*(outerRadius - innerRadius) +
    innerRadius and angle = -(x / destWidth)*2*pi + rotationOffset. *)
Theorem build_map_formula
        (unw_w unw_h : Z) (cx cy rmin rmax shift yA yB yC : R) (x y : Z) :
  (0 <= x < unw_w)%Z -> (0 <= y < unw_h)%Z ->
  let t := IZR y / IZR unw_h in
  let frac := yA * t ^ 2 + yB * t + yC in
  let radius := frac * (rmax - rmin) + rmin in
  let angle := - (IZR x / IZR unw_w) * (2 * PI) + shift in
  Np.item (fst (build_map unw_w unw_h cx cy rmin rmax shift yA yB yC)) y x
    = cx + radius * cos angle /\
  Np.item (snd (build_map unw_w unw_h cx cy rmin rmax shift yA yB yC)) y x
    = cy + radius * sin angle.
Proof.
  intros Hx Hy t frac radius angle.
  destruct (build_map_item unw_w unw_h cx cy rmin rmax shift yA yB yC x y Hx Hy)
    as [Ex Ey].
  cbv zeta in Ex, Ey. rewrite Ex, Ey.
  assert (Ea : 0 - IZR x / IZR unw_w * (2 * PI) + shift = angle)
    by (unfold angle; ring).
  rewrite Ea. split; reflexivity.
Qed.

Lemma build_map_formula_witness :
  Np.item (fst (build_map 8 2 100 90 10 50 0 Y_WARP_A Y_WARP_B Y_WARP_C)) 1 3
    = 100 + ((Y_WARP_A * (IZR 1 / IZR 2) ^ 2 + Y_WARP_B * (IZR 1 / IZR 2)
              + Y_WARP_C) * (50 - 10) + 10)
            * cos (- (IZR 3 / IZR 8) * (2 * PI) + 0) /\
  Np.item (snd (build_map 8 2 100 90 10 50 0 Y_WARP_A Y_WARP_B Y_WARP_C)) 1 3
    = 90 + ((Y_WARP_A * (IZR 1 / IZR 2) ^ 2 + Y_WARP_B * (IZR 1 / IZR 2)
             + Y_WARP_C) * (50 - 10) + 10)
           * sin (- (IZR 3 / IZR 8) * (2 * PI) + 0).
Proof.
  apply (build_map_formula 8 2 100 90 10 50 0 Y_WARP_A Y_WARP_B Y_WARP_C 3 1);
    lia.
Defined.

(** C2: the radial fraction is used unclamped.  For valid radii
    (innerRadius < outerRadius) and a row whose fraction frac = A*t^2 + B*t + C
    lies outside [0,1], the radius the map is built with is exactly
    frac*(outerRadius - innerRadius) + innerRadius, it lies outside
    [innerRadius, outerRadius], and the mapped point lies on the circle of
    that radius around the centre. *)
Theorem build_map_radius_unclamped
        (unw_w unw_h : Z) (cx cy rmin rmax shift yA yB yC : R) (x y : Z) :
  (0 <= x < unw_w)%Z -> (0 <= y < unw_h)%Z ->
  rmin < rmax ->
  let t := IZR y / IZR unw_h in
  let frac := yA * t ^ 2 + yB * t + yC in
  let angle := - (IZR x / IZR unw_w) * (2 * PI) + shift in
  let mx := Np.item (fst (build_map unw_w unw_h cx cy rmin rmax shift yA yB yC)) y x in
  let my := Np.item (snd (build_map unw_w unw_h cx cy rmin rmax shift yA yB yC)) y x in
  frac < 0 \/ 1 < frac ->
  exists radius : R,
    radius = frac * (rmax - rmin) + rmin /\
    (frac < 0 -> radius < rmin) /\
    (1 < frac -> rmax < radius) /\
    mx = cx + radius * cos angle /\
    my = cy + radius * sin angle /\
    (mx - cx) ^ 2 + (my - cy) ^ 2 = radius ^ 2.
Proof.
  intros Hx Hy Hr t frac angle mx my Hout.
  destruct (build_map_entry unw_w unw_h cx cy rmin rmax shift yA yB yC x y Hx Hy)
    as [Ex Ey].
  fold t in Ex, Ey. fold frac in Ex, Ey. fold angle in Ex, Ey.
  fold mx in Ex. fold my in Ey.
  exists (frac * (rmax - rmin) + rmin).
  split; [reflexivity|].
  split; [intro Hlo; nra|].
  split; [intro Hhi; nra|].
  split; [exact Ex|]. split; [exact Ey|].
  rewrite Ex, Ey.
  pose proof (sin2_cos2 angle) as Hsc. unfold Rsqr in Hsc.
  set (r := frac * (rmax - rmin) + rmin).
  replace ((cx + r * cos angle - cx) ^ 2 + (cy + r * sin angle - cy) ^ 2)
    with (r ^ 2 * (sin angle * sin angle + cos angle * cos angle)) by ring.
  rewrite Hsc. ring.
Qed.

Lemma build_map_radius_unclamped_witness :
  exists radius : R,
    radius = (0 * (IZR 1 / IZR 2) ^ 2 + 4 * (IZR 1 / IZR 2) + 0) * (50 - 10) + 10 /\
    ((0 * (IZR 1 / IZR 2) ^ 2 + 4 * (IZR 1 / IZR 2) + 0) < 0 -> radius < 10) /\
    (1 < (0 * (IZR 1 / IZR 2) ^ 2 + 4 * (IZR 1 / IZR 2) + 0) -> 50 < radius) /\
    Np.item (fst (build_map 8 2 100 90 10 50 0 0 4 0)) 1 3
      = 100 + radius * cos (- (IZR 3 / IZR 8) * (2 * PI) + 0) /\
    Np.item (snd (build_map 8 2 100 90 10 50 0 0 4 0)) 1 3
      = 90 + radius * sin (- (IZR 3 / IZR 8) * (2 * PI) + 0) /\
    (Np.item (fst (build_map 8 2 100 90 10 50 0 0 4 0)) 1 3 - 100) ^ 2
    + (Np.item (snd (build_map 8 2 100 90 10 50 0 0 4 0)) 1 3 - 90) ^ 2
      = radius ^ 2.
Proof.
  apply (build_map_radius_unclamped 8 2 100 90 10 50 0 0 4 0 3 1);
    [lia | lia | lra | right; lra].
Defined.

Lemma cos_add_turn (a s : R) : cos (a + (s + 2 * PI)) = cos (a + s).
Proof.
  replace (a + (s + 2 * PI)) with ((a + s) + 2 * PI) by ring.
  rewrite cos_plus, cos_2PI, sin_2PI. ring.
Qed.

Lemma sin_add_turn (a s : R) : sin (a + (s + 2 * PI)) = sin (a + s).
Proof.
  replace (a + (s + 2 * PI)) with ((a + s) + 2 * PI) by ring.
  rewrite sin_plus, cos_2PI, sin_2PI. ring.
Qed.

(** C8: angular periodicity.  In exact real arithmetic the map built with
    rotationOffset + 2*pi is the map built with rotationOffset, entry for
    entry. *)
Theorem build_map_periodic
        (unw_w unw_h : Z) (cx cy rmin rmax shift yA yB yC : R) :
  build_map unw_w unw_h cx cy rmin rmax (shift + 2 * PI) yA yB yC
  = build_map unw_w unw_h cx cy rmin rmax shift yA yB yC.
Proof.
  unfold build_map, Np.broadcast, Np.ufunc.
  f_equal.
  - apply map_ext. intro r. rewrite !map_map. apply map_ext. intro v.
    now rewrite cos_add_turn.
  - apply map_ext. intro r. rewrite !map_map. apply map_ext. intro v.
    now rewrite sin_add_turn.
Qed.

(** *** The driver [unwarp] *)

Lemma unwarp_call_ok (img : Raster) (w : Z) (cx cy rmin rmax shift : R)
      (interp : string) (h : Z) :
  unw_h_of w = Ok h ->
  unwarp_call img w cx cy rmin rmax shift interp
  = Ok (mkRemapCall img
          (fst (build_map_default w h cx cy rmin rmax shift))
          (snd (build_map_default w h cx cy rmin rmax shift))
          (interp_mode interp) BORDER_CONSTANT zero_pixel).
Proof.
  intro Hh. unfold unwarp_call. rewrite Hh. cbn [bind].
  destruct (build_map_default w h cx cy rmin rmax shift) as [mx my].
  reflexivity.
Qed.

Lemma unwarp_call_raised (img : Raster) (w : Z) (cx cy rmin rmax shift : R)
      (interp : string) :
  raised (unwarp_call img w cx cy rmin rmax shift interp) = raised (unw_h_of w).
Proof.
  unfold unwarp_call. destruct (unw_h_of w) as [h|e]; cbn [bind raised].
  - destruct (build_map_default w h cx cy rmin rmax shift); reflexivity.
  - reflexivity.
Qed.

Lemma has_shape_no_entries {A : Type} (a : list (list A)) (h w : nat) :
  Np.has_shape a h w -> (h = 0 \/ w = 0)%nat -> concat a = [].
Proof.
  intros [Hl Hf] Hz. subst h.
  induction a as [|r a IH]; [reflexivity|].
  destruct Hz as [Hz|Hz]; [discriminate|].
  inversion Hf as [|? ? Hr Hf']; subst.
  cbn [concat]. rewrite IH by (auto; now right).
  destruct r; [reflexivity|]. cbn in Hr. lia.
Qed.

(** C3 (counterexample): a call with width 0, and a call with width 3 whose
    derived height is 0, are not rejected: [unwarp] builds the (empty) map and
    reaches the call of the resampler. *)
Lemma unwarp_degenerate_dimensions_not_rejected :
  unwarp_call sample_raster 0 1 1 0 1 0 "nearest"
    = Ok (mkRemapCall sample_raster [] [] INTER_NEAREST BORDER_CONSTANT zero_pixel)
  /\ unw_h_of 3 = Ok 0%Z
  /\ unwarp_call sample_raster 3 1 1 0 1 0 "nearest"
    = Ok (mkRemapCall sample_raster [] [] INTER_NEAREST BORDER_CONSTANT zero_pixel).
Proof.
  assert (H0 : unw_h_of 0 = Ok 0%Z) by (vm_compute; reflexivity).
  assert (H3 : unw_h_of 3 = Ok 0%Z) by (vm_compute; reflexivity).
  split; [|split].
  - rewrite (unwarp_call_ok _ _ _ _ _ _ _ _ _ H0). reflexivity.
  - exact H3.
  - rewrite (unwarp_call_ok _ _ _ _ _ _ _ _ _ H3). reflexivity.
Qed.

(** C3 (amended): [unwarp] checks no dimension.  Whenever the height
    h = int(round(unw_w / ASPECT)) is computed and unw_w <= 0 or h < 1, the
    call is not rejected: the map is built by [build_map(unw_w, h, ...)], has
    max(h,0) rows of max(unw_w,0) entries, hence no entry at all, and is
    handed to the resampler. *)
Theorem unwarp_builds_map_for_degenerate_dimensions
        (img : Raster) (w : Z) (cx cy rmin rmax shift : R) (interp : string)
        (h : Z) :
  unw_h_of w = Ok h ->
  (w <= 0 \/ h < 1)%Z ->
  exists c : RemapCall,
    unwarp_call img w cx cy rmin rmax shift interp = Ok c /\
    (call_map1 c, call_map2 c) = build_map_default w h cx cy rmin rmax shift /\
    Np.has_shape (call_map1 c) (Z.to_nat h) (Z.to_nat w) /\
    Np.has_shape (call_map2 c) (Z.to_nat h) (Z.to_nat w) /\
    concat (call_map1 c) = [] /\ concat (call_map2 c) = [].
Proof.
  intros Hh Hdeg.
  eexists. split; [apply (unwarp_call_ok _ _ _ _ _ _ _ _ _ Hh)|].
  cbn [call_map1 call_map2].
  destruct (build_map_shape w h cx cy rmin rmax shift Y_WARP_A Y_WARP_B Y_WARP_C)
    as [S1 S2].
  fold (build_map_default w h cx cy rmin rmax shift) in S1, S2.
  split; [now destruct (build_map_default w h cx cy rmin rmax shift)|].
  split; [exact S1|]. split; [exact S2|].
  assert (Hz : (Z.to_nat h = 0 \/ Z.to_nat w = 0)%nat) by lia.
  split; eapply has_shape_no_entries; eauto.
Qed.

Lemma unwarp_builds_map_for_degenerate_dimensions_witness :
  exists c : RemapCall,
    unwarp_call sample_raster 3 1 1 0 1 0 "cubic" = Ok c /\
    (call_map1 c, call_map2 c) = build_map_default 3 0 1 1 0 1 0 /\
    Np.has_shape (call_map1 c) (Z.to_nat 0) (Z.to_nat 3) /\
    Np.has_shape (call_map2 c) (Z.to_nat 0) (Z.to_nat 3) /\
    concat (call_map1 c) = [] /\ concat (call_map2 c) = [].
Proof.
  apply (unwarp_builds_map_for_degenerate_dimensions
           sample_raster 3 1 1 0 1 0 "cubic" 0).
  - vm_compute. reflexivity.
  - right. lia.
Defined.

(** C4 (counterexample): calls with innerRadius = outerRadius = 5 and with
    innerRadius = -1 are not rejected: the map is built (1 row of 8 entries)
    and handed to the resampler. *)
Lemma unwarp_invalid_radii_not_rejected :
  raised (unwarp_call sample_raster 8 1 1 5 5 0 "nearest") = false /\
  raised (unwarp_call sample_raster 8 1 1 (-1) 5 0 "nearest") = false /\
  exists c : RemapCall,
    unwarp_call sample_raster 8 1 1 5 5 0 "nearest" = Ok c /\
    (call_map1 c, call_map2 c) = build_map_default 8 1 1 1 5 5 0 /\
    Np.has_shape (call_map1 c) 1 8.
Proof.
  assert (H8 : unw_h_of 8 = Ok 1%Z) by (vm_compute; reflexivity).
  split; [|split].
  - rewrite unwarp_call_raised, H8. reflexivity.
  - rewrite unwarp_call_raised, H8. reflexivity.
  - eexists. split; [apply (unwarp_call_ok _ _ _ _ _ _ _ _ _ H8)|].
    cbn [call_map1 call_map2]. split.
    + now destruct (build_map_default 8 1 1 1 5 5 0).
    + apply (build_map_shape 8 1 1 1 5 5 0 Y_WARP_A Y_WARP_B Y_WARP_C).
Qed.

(** C4 (amended): [unwarp] checks no radius.  For radii with innerRadius < 0
    or innerRadius >= outerRadius, whenever the height h is computed the call
    is not rejected: the map is built by [build_map(unw_w, h, ...)] from the
    same formulas as for valid radii and handed to the resampler. *)
Theorem unwarp_builds_map_for_invalid_radii
        (img : Raster) (w : Z) (cx cy rmin rmax shift : R) (interp : string)
        (h : Z) :
  unw_h_of w = Ok h ->
  rmin < 0 \/ rmax <= rmin ->
  exists c : RemapCall,
    unwarp_call img w cx cy rmin rmax shift interp = Ok c /\
    (call_map1 c, call_map2 c) = build_map_default w h cx cy rmin rmax shift /\
    Np.has_shape (call_map1 c) (Z.to_nat h) (Z.to_nat w) /\
    Np.has_shape (call_map2 c) (Z.to_nat h) (Z.to_nat w) /\
    forall x y : Z, (0 <= x < w)%Z -> (0 <= y < h)%Z ->
      let t := IZR y / IZR h in
      let radius := (Y_WARP_A * t ^ 2 + Y_WARP_B * t + Y_WARP_C) * (rmax - rmin)
                    + rmin in
      let angle := - (IZR x / IZR w) * (2 * PI) + shift in
      Np.item (call_map1 c) y x = cx + radius * cos angle /\
      Np.item (call_map2 c) y x = cy + radius * sin angle.
Proof.
  intros Hh _.
  eexists. split; [apply (unwarp_call_ok _ _ _ _ _ _ _ _ _ Hh)|].
  cbn [call_map1 call_map2].
  destruct (build_map_shape w h cx cy rmin rmax shift Y_WARP_A Y_WARP_B Y_WARP_C)
    as [S1 S2].
  fold (build_map_default w h cx cy rmin rmax shift) in S1, S2.
  split; [now destruct (build_map_default w h cx cy rmin rmax shift)|].
  split; [exact S1|]. split; [exact S2|].
  intros x y Hx Hy. unfold build_map_default.
  destruct (build_map_item w h cx cy rmin rmax shift
              Y_WARP_A Y_WARP_B Y_WARP_C x y Hx Hy) as [Ex Ey].
  cbv zeta in Ex, Ey. rewrite Ex, Ey.
  assert (Ea : 0 - IZR x / IZR w * (2 * PI) + shift
               = - (IZR x / IZR w) * (2 * PI) + shift) by ring.
  rewrite Ea. split; reflexivity.
Qed.

Lemma unwarp_builds_map_for_invalid_radii_witness :
  exists c : RemapCall,
    unwarp_call sample_raster 8 1 1 5 5 0 "nearest" = Ok c /\
    (call_map1 c, call_map2 c) = build_map_default 8 1 1 1 5 5 0 /\
    Np.has_shape (call_map1 c) (Z.to_nat 1) (Z.to_nat 8) /\
    Np.has_shape (call_map2 c) (Z.to_nat 1) (Z.to_nat 8) /\
    forall x y : Z, (0 <= x < 8)%Z -> (0 <= y < 1)%Z ->
      let t := IZR y / IZR 1 in
      let radius := (Y_WARP_A * t ^ 2 + Y_WARP_B * t + Y_WARP_C) * (5 - 5) + 5 in
      let angle := - (IZR x / IZR 8) * (2 * PI) + 0 in
      Np.item (call_map1 c) y x = 1 + radius * cos angle /\
      Np.item (call_map2 c) y x = 1 + radius * sin angle.
Proof.
  apply (unwarp_builds_map_for_invalid_radii
           sample_raster 8 1 1 5 5 0 "nearest" 1).
  - vm_compute. reflexivity.
  - right. lra.
Defined.

Lemma in_zrange (n : nat) (lo w : Z) :
  (lo <= w < lo + Z.of_nat n)%Z -> In w (zrange lo n).
Proof.
  revert lo. induction n as [|n IH]; intros lo Hw.
  - lia.
  - cbn [zrange]. destruct (Z.eq_dec lo w) as [->|Hne].
    + now left.
    + right. apply IH. lia.
Qed.

(** *** Shapes and entries of the resampled raster *)

Lemma zero_areab_true (s : Raster) : zero_area s -> zero_areab s = true.
Proof.
  unfold zero_area, zero_areab. intros [H|H]; rewrite H.
  - reflexivity.
  - apply orb_true_r.
Qed.

Lemma zero_areab_false (s : Raster) : ~ zero_area s -> zero_areab s = false.
Proof.
  unfold zero_area, zero_areab. intro H.
  apply orb_false_iff. split; apply Z.eqb_neq; intro E; apply H; auto.
Qed.

Lemma zero_areab_inv (s : Raster) : zero_areab s = true -> zero_area s.
Proof.
  unfold zero_area, zero_areab. intro H.
  apply orb_true_iff in H. destruct H as [H|H]; apply Z.eqb_eq in H; auto.
Qed.

Lemma no_entries_false {A : Type} (a : list (list A)) (h w : nat) :
  Np.has_shape a h w -> (1 <= h)%nat -> (1 <= w)%nat -> no_entries a = false.
Proof.
  intros [Hl Hf] Hh Hw. unfold no_entries.
  destruct a as [|r a]; [cbn in Hl; lia|].
  inversion Hf as [|? ? Hr _]; subst.
  destruct r as [|v r]; [cbn in Hw; lia|]. reflexivity.
Qed.

Lemma no_entries_true {A : Type} (a : list (list A)) (h w : nat) :
  Np.has_shape a h w -> no_entries a = false -> (1 <= h /\ 1 <= w)%nat.
Proof.
  intros Hs Hn.
  destruct (Nat.eq_dec h 0) as [Eh|Eh].
  - unfold no_entries in Hn.
    rewrite (has_shape_no_entries a h w Hs (or_introl Eh)) in Hn. discriminate.
  - destruct (Nat.eq_dec w 0) as [Ew|Ew].
    + unfold no_entries in Hn.
      rewrite (has_shape_no_entries a h w Hs (or_intror Ew)) in Hn.
      discriminate.
    + lia.
Qed.

Lemma remap_pixels_shape (kernel : R -> nat -> R) (c : RemapCall) (h w : nat) :
  Np.has_shape (call_map1 c) h w ->
  Np.has_shape (call_map2 c) h w ->
  Np.has_shape (remap_pixels kernel c) h w.
Proof.
  intros [L1 F1] [L2 F2]. unfold remap_pixels, Np.has_shape.
  split.
  - rewrite length_map, length_combine. lia.
  - apply Forall_forall. intros row Hrow.
    apply in_map_iff in Hrow. destruct Hrow as [[r1 r2] [<- Hin]].
    rewrite length_map, length_combine. cbn [fst snd].
    pose proof (in_combine_l _ _ _ _ Hin) as H1.
    pose proof (in_combine_r _ _ _ _ Hin) as H2.
    rewrite Forall_forall in F1, F2.
    rewrite (F1 _ H1), (F2 _ H2). lia.
Qed.

Lemma nth_map_combine {A B C : Type} (f : A * B -> C) (l1 : list A)
      (l2 : list B) (n : nat) (da : A) (db : B) (dc : C) :
  length l1 = length l2 -> (n < length l1)%nat ->
  nth n (map f (combine l1 l2)) dc = f (nth n l1 da, nth n l2 db).
Proof.
  intros Hl Hn.
  rewrite (nth_indep _ dc (f (da, db)))
    by (rewrite length_map, length_combine; lia).
  rewrite map_nth. now rewrite combine_nth.
Qed.

(** The pixel of the per-pixel loop at row y, column x is the sample at the
    coordinates the two maps hold there. *)
Lemma remap_pixels_pixel (kernel : R -> nat -> R) (c : RemapCall) (h w : nat)
      (x y : Z) :
  Np.has_shape (call_map1 c) h w ->
  Np.has_shape (call_map2 c) h w ->
  (0 <= x < Z.of_nat w)%Z -> (0 <= y < Z.of_nat h)%Z ->
  pixel_at (remap_pixels kernel c) x y
  = sample kernel (call_interpolation c) (call_borderMode c)
           (call_borderValue c) (call_src c)
           (Np.item (call_map1 c) y x) (Np.item (call_map2 c) y x).
Proof.
  intros [L1 F1] [L2 F2] Hx Hy.
  unfold pixel_at, remap_pixels, Np.item.
  assert (Hyn : (Z.to_nat y < length (call_map1 c))%nat) by lia.
  rewrite (nth_map_combine _ (call_map1 c) (call_map2 c) (Z.to_nat y) [] [] [])
    by (try exact Hyn; lia).
  cbn [fst snd].
  rewrite Forall_forall in F1, F2.
  assert (R1 : length (nth (Z.to_nat y) (call_map1 c) []) = w)
    by (apply F1, nth_In; lia).
  assert (R2 : length (nth (Z.to_nat y) (call_map2 c) []) = w)
    by (apply F2, nth_In; lia).
  rewrite (nth_map_combine _ _ _ (Z.to_nat x) 0 0 zero_pixel) by lia.
  reflexivity.
Qed.

Lemma cv2_remap_ok (kernel : R -> nat -> R) (c : RemapCall) :
  zero_areab (call_src c) = false -> no_entries (call_map1 c) = false ->
  cv2_remap kernel c = Ok (remap_pixels kernel c).
Proof. intros Hs Hm. unfold cv2_remap. now rewrite Hs, Hm. Qed.

Lemma cv2_remap_accepted (kernel : R -> nat -> R) (c : RemapCall) (dst : Raster) :
  cv2_remap kernel c = Ok dst ->
  zero_areab (call_src c) = false /\ no_entries (call_map1 c) = false /\
  dst = remap_pixels kernel c.
Proof.
  unfold cv2_remap.
  destruct (zero_areab (call_src c)); [discriminate|].
  destruct (no_entries (call_map1 c)); [discriminate|].
  intro H. injection H as <-. repeat split.
Qed.

Lemma unwarp_ok (kernel : R -> nat -> R) (img : Raster) (w : Z)
      (cx cy rmin rmax shift : R) (interp : string) (h : Z) :
  unw_h_of w = Ok h -> zero_areab img = false -> (1 <= w)%Z -> (1 <= h)%Z ->
  unwarp kernel img w cx cy rmin rmax shift interp
  = Ok (remap_pixels kernel
          (mkRemapCall img
             (fst (build_map_default w h cx cy rmin rmax shift))
             (snd (build_map_default w h cx cy rmin rmax shift))
             (interp_mode interp) BORDER_CONSTANT zero_pixel)).
Proof.
  intros Hh Hs Hw H1. unfold unwarp.
  rewrite (unwarp_call_ok _ _ _ _ _ _ _ _ _ Hh). cbn [bind].
  apply cv2_remap_ok; cbn [call_src call_map1]; [exact Hs|].
  destruct (build_map_shape w h cx cy rmin rmax shift
              Y_WARP_A Y_WARP_B Y_WARP_C) as [S1 _].
  apply (no_entries_false _ _ _ S1); lia.
Qed.

Lemma unwarp_accepted (kernel : R -> nat -> R) (img : Raster) (w : Z)
      (cx cy rmin rmax shift : R) (interp : string) (pano : Raster) :
  unwarp kernel img w cx cy rmin rmax shift interp = Ok pano ->
  exists h : Z,
    unw_h_of w = Ok h /\ zero_areab img = false /\
    (1 <= w)%Z /\ (1 <= h)%Z /\
    pano = remap_pixels kernel
             (mkRemapCall img
                (fst (build_map_default w h cx cy rmin rmax shift))
                (snd (build_map_default w h cx cy rmin rmax shift))
                (interp_mode interp) BORDER_CONSTANT zero_pixel).
Proof.
  intro Hu. unfold unwarp in Hu.
  destruct (unw_h_of w) as [h|e] eqn:Hh.
  - rewrite (unwarp_call_ok _ _ _ _ _ _ _ _ _ Hh) in Hu. cbn [bind] in Hu.
    apply cv2_remap_accepted in Hu. cbn [call_src call_map1] in Hu.
    destruct Hu as [Hs [Hm Hp]].
    destruct (build_map_shape w h cx cy rmin rmax shift
                Y_WARP_A Y_WARP_B Y_WARP_C) as [S1 _].
    destruct (no_entries_true _ _ _ S1 Hm) as [N1 N2].
    exists h. split; [reflexivity|]. split; [exact Hs|].
    split; [lia|]. split; [lia | exact Hp].
  - unfold unwarp_call in Hu. rewrite Hh in Hu. cbn [bind] in Hu. discriminate.
Qed.

(** *** The resampler *)

Lemma Int_part_bounds (x : R) : IZR (Int_part x) <= x < IZR (Int_part x) + 1.
Proof. destruct (base_Int_part x) as [H1 H2]. lra. Qed.

Lemma Int_part_unique (x : R) (n : Z) :
  IZR n <= x < IZR n + 1 -> Int_part x = n.
Proof.
  intros [Hlo Hhi]. unfold Int_part.
  assert (Hup : (n + 1)%Z = up x).
  { apply tech_up; rewrite plus_IZR; lra. }
  lia.
Qed.

Lemma pix_add_zero_l (p : Pixel) : pix_add zero_pixel p = p.
Proof. destruct p as [b g r]. unfold pix_add. cbn. f_equal; ring. Qed.

Lemma pix_scale_zero (k : R) : pix_scale k zero_pixel = zero_pixel.
Proof. unfold pix_scale, zero_pixel. cbn. f_equal; ring. Qed.

Lemma pix_sum_zero (l : list Pixel) :
  (forall p, In p l -> p = zero_pixel) -> pix_sum l = zero_pixel.
Proof.
  induction l as [|p l IH]; intro Hall; [reflexivity|].
  cbn [pix_sum fold_right]. fold (pix_sum l).
  rewrite IH by (intros q Hq; apply Hall; now right).
  rewrite (Hall p) by now left.
  apply pix_add_zero_l.
Qed.

Lemma fetch_constant_outside (bv : Pixel) (s : Raster) (ix iy : Z) :
  inside s ix iy = false -> fetch BORDER_CONSTANT bv s ix iy = bv.
Proof. intro H. unfold fetch. now rewrite H. Qed.

Lemma inside_false_iff (s : Raster) (ix iy : Z) :
  inside s ix iy = false <->
  (ix < 0 \/ cols s <= ix \/ iy < 0 \/ rows s <= iy)%Z.
Proof.
  unfold inside.
  destruct (Z.leb_spec 0 ix), (Z.ltb_spec ix (cols s)),
           (Z.leb_spec 0 iy), (Z.ltb_spec iy (rows s)); cbn;
    split; intro Hyp; try reflexivity; try discriminate; lia.
Qed.

(** When the real position is two or more pixels outside the raster, every
    tap of its 4x4 neighbourhood is outside. *)
Lemma neighbourhood_outside (s : Raster) (x y : R) (i j : nat) :
  x < -2 \/ IZR (cols s) + 1 <= x \/ y < -2 \/ IZR (rows s) + 1 <= y ->
  (i < 4)%nat -> (j < 4)%nat ->
  inside s (cvFloor x - 1 + Z.of_nat i) (cvFloor y - 1 + Z.of_nat j) = false.
Proof.
  intros Hout Hi Hj. apply inside_false_iff. unfold cvFloor.
  pose proof (Int_part_bounds x) as Bx.
  pose proof (Int_part_bounds y) as By.
  destruct Hout as [H|[H|[H|H]]].
  - left. assert (Hlt : (Int_part x < -2)%Z) by (apply lt_IZR; lra). lia.
  - right; left.
    assert (Hlt : (cols s + 1 < Int_part x + 1)%Z)
      by (apply lt_IZR; rewrite !plus_IZR; lra).
    lia.
  - right; right; left.
    assert (Hlt : (Int_part y < -2)%Z) by (apply lt_IZR; lra). lia.
  - right; right; right.
    assert (Hlt : (rows s + 1 < Int_part y + 1)%Z)
      by (apply lt_IZR; rewrite !plus_IZR; lra).
    lia.
Qed.

Lemma sample_cubic_all_outside (kernel : R -> nat -> R) (s : Raster) (x y : R) :
  x < -2 \/ IZR (cols s) + 1 <= x \/ y < -2 \/ IZR (rows s) + 1 <= y ->
  sample_cubic kernel BORDER_CONSTANT zero_pixel s x y = zero_pixel.
Proof.
  intro Hout. unfold sample_cubic.
  apply pix_sum_zero. intros p Hp.
  apply in_map_iff in Hp. destruct Hp as [j [<- Hj]].
  apply in_seq in Hj.
  apply pix_sum_zero. intros q Hq.
  apply in_map_iff in Hq. destruct Hq as [i [<- Hi]].
  apply in_seq in Hi.
  rewrite fetch_constant_outside
    by (apply neighbourhood_outside; [exact Hout | lia | lia]).
  apply pix_scale_zero.
Qed.

Lemma cvRound_minus_quarter : cvRound (- (1 / 4)) = 0%Z.
Proof.
  unfold cvRound.
  rewrite (Int_part_unique (- (1 / 4)) (-1)) by lra.
  destruct (Rlt_dec (- (1 / 4) - -1) (1 / 2)) as [H|_]; [lra|].
  destruct (Rlt_dec (1 / 2) (- (1 / 4) - -1)) as [_|H]; [reflexivity|lra].
Qed.

Lemma cvRound_zero : cvRound 0 = 0%Z.
Proof.
  unfold cvRound.
  rewrite (Int_part_unique 0 0) by lra.
  destruct (Rlt_dec (0 - 0) (1 / 2)) as [_|H]; [reflexivity|lra].
Qed.

(** *** Rejection and acceptance by the resampler *)

(** C5: a zero-area source raster (no rows, or rows without pixels) is
    rejected with EmptySource before any pixel is sampled.  [unwarp] itself
    does not examine the raster: it hands it unchanged to the resampler,
    which rejects it whatever the map, the mode and the kernel are, and the
    rejection is the result of [unwarp].  EmptySource is raised for no other
    reason. *)
Theorem unwarp_rejects_empty_source
        (kernel : R -> nat -> R) (img : Raster) (w : Z)
        (cx cy rmin rmax shift : R) (interp : string) (h : Z) :
  zero_area img ->
  unw_h_of w = Ok h ->
  unwarp kernel img w cx cy rmin rmax shift interp = Raise EmptySource /\
  (exists c : RemapCall,
      unwarp_call img w cx cy rmin rmax shift interp = Ok c /\
      call_src c = img /\
      cv2_remap kernel c = Raise EmptySource) /\
  (forall c : RemapCall,
      zero_area (call_src c) <-> cv2_remap kernel c = Raise EmptySource).
Proof.
  intros Hz Hh.
  assert (Hall : forall c : RemapCall,
             zero_area (call_src c) -> cv2_remap kernel c = Raise EmptySource).
  { intros c Hc. unfold cv2_remap. now rewrite (zero_areab_true _ Hc). }
  split; [|split].
  - unfold unwarp. rewrite (unwarp_call_ok _ _ _ _ _ _ _ _ _ Hh). cbn [bind].
    apply Hall. exact Hz.
  - eexists. split; [apply (unwarp_call_ok _ _ _ _ _ _ _ _ _ Hh)|].
    split; [reflexivity|]. apply Hall. exact Hz.
  - intro c. split; [apply Hall|].
    unfold cv2_remap. destruct (zero_areab (call_src c)) eqn:E.
    + intros _. now apply zero_areab_inv.
    + destruct (no_entries (call_map1 c)); discriminate.
Qed.

Lemma unwarp_rejects_empty_source_witness :
  unwarp cubic_coeffs [[]; []] 8 1 1 0 1 0 "cubic" = Raise EmptySource /\
  (exists c : RemapCall,
      unwarp_call [[]; []] 8 1 1 0 1 0 "cubic" = Ok c /\
      call_src c = [[]; []] /\
      cv2_remap cubic_coeffs c = Raise EmptySource) /\
  (forall c : RemapCall,
      zero_area (call_src c) <-> cv2_remap cubic_coeffs c = Raise EmptySource).
Proof.
  apply (unwarp_rejects_empty_source cubic_coeffs [[]; []] 8 1 1 0 1 0 "cubic" 1).
  - right. reflexivity.
  - vm_compute. reflexivity.
Defined.

(** C6: for every positive destWidth the transform accepts (the call of
    [unwarp] returns a raster), the height int(round(destWidth / ASPECT)) is
    computed, it is the number of rows of both maps and of the returned
    raster, and it is at least 1. *)
Theorem unwarp_accepted_height
        (kernel : R -> nat -> R) (img : Raster) (w : Z)
        (cx cy rmin rmax shift : R) (interp : string) (pano : Raster) :
  (0 < w)%Z ->
  unwarp kernel img w cx cy rmin rmax shift interp = Ok pano ->
  exists (h : Z) (c : RemapCall),
    unw_h_of w = Ok h /\
    (1 <= h)%Z /\
    unwarp_call img w cx cy rmin rmax shift interp = Ok c /\
    (call_map1 c, call_map2 c) = build_map_default w h cx cy rmin rmax shift /\
    Np.has_shape (call_map1 c) (Z.to_nat h) (Z.to_nat w) /\
    Np.has_shape (call_map2 c) (Z.to_nat h) (Z.to_nat w) /\
    Np.has_shape pano (Z.to_nat h) (Z.to_nat w).
Proof.
  intros Hw Hu.
  destruct (unwarp_accepted kernel img w cx cy rmin rmax shift interp pano Hu)
    as [h [Hh [_ [_ [H1 Hp]]]]].
  destruct (build_map_shape w h cx cy rmin rmax shift
              Y_WARP_A Y_WARP_B Y_WARP_C) as [S1 S2].
  fold (build_map_default w h cx cy rmin rmax shift) in S1, S2.
  exists h. eexists.
  split; [exact Hh|]. split; [exact H1|].
  split; [apply (unwarp_call_ok _ _ _ _ _ _ _ _ _ Hh)|].
  cbn [call_map1 call_map2].
  split; [now destruct (build_map_default w h cx cy rmin rmax shift)|].
  split; [exact S1|]. split; [exact S2|].
  rewrite Hp. apply remap_pixels_shape; cbn [call_map1 call_map2]; assumption.
Qed.

Lemma unwarp_accepted_height_witness :
  exists pano : Raster,
    unwarp cubic_coeffs sample_raster 1620 1 1 0 1 0 "nearest" = Ok pano /\
    exists (h : Z) (c : RemapCall),
      unw_h_of 1620 = Ok h /\
      (1 <= h)%Z /\
      unwarp_call sample_raster 1620 1 1 0 1 0 "nearest" = Ok c /\
      (call_map1 c, call_map2 c) = build_map_default 1620 h 1 1 0 1 0 /\
      Np.has_shape (call_map1 c) (Z.to_nat h) (Z.to_nat 1620) /\
      Np.has_shape (call_map2 c) (Z.to_nat h) (Z.to_nat 1620) /\
      Np.has_shape pano (Z.to_nat h) (Z.to_nat 1620).
Proof.
  assert (Hh : unw_h_of 1620 = Ok 247%Z) by (vm_compute; reflexivity).
  pose proof (unwarp_ok cubic_coeffs sample_raster 1620 1 1 0 1 0 "nearest" 247
                Hh eq_refl ltac:(lia) ltac:(lia)) as Hu.
  eexists. split; [exact Hu|].
  apply (unwarp_accepted_height cubic_coeffs sample_raster 1620 1 1 0 1 0
           "nearest" _ ltac:(lia) Hu).
Defined.

(** *** The border policy *)

(** C7 (counterexample): on a 1x1 white source, the map entry (-1/4, 0) lies
    outside [0,1) x [0,1), yet the nearest mode writes the white source pixel,
    not the zero fill value. *)
Lemma remap_nearest_reads_pixel_for_outside_coordinate :
  ~ coord_inside [[white]] (- (1 / 4)) 0 /\
  cv2_remap cubic_coeffs
    (mkRemapCall [[white]] [[- (1 / 4)]] [[0]]
                 INTER_NEAREST BORDER_CONSTANT zero_pixel)
  = Ok [[white]] /\
  white <> zero_pixel.
Proof.
  split; [|split].
  - unfold coord_inside. intros [[H _] _]. lra.
  - unfold cv2_remap. cbn [call_src call_map1 zero_areab no_entries concat app].
    replace (zero_areab [[white]]) with false by reflexivity.
    unfold remap_pixels.
    cbn [call_map1 call_map2 combine map fst snd
         call_interpolation call_borderMode call_borderValue call_src sample].
    unfold sample_nearest. rewrite cvRound_minus_quarter, cvRound_zero.
    reflexivity.
  - unfold white, zero_pixel. intro H. injection H as Hb _ _. lra.
Qed.

Lemma sample_cubic_padded (kernel : R -> nat -> R) (s : Raster) (x y : R) :
  sample_cubic kernel BORDER_CONSTANT zero_pixel s x y
  = pix_sum
      (map (fun j =>
              pix_sum
                (map (fun i =>
                        if inside s (cvFloor x - 1 + Z.of_nat i)
                                    (cvFloor y - 1 + Z.of_nat j)
                        then pix_scale
                               (kernel (y - IZR (cvFloor y)) j
                                * kernel (x - IZR (cvFloor x)) i)
                               (pixel_at s (cvFloor x - 1 + Z.of_nat i)
                                           (cvFloor y - 1 + Z.of_nat j))
                        else zero_pixel)
                     (seq 0 4)))
           (seq 0 4)).
Proof.
  unfold sample_cubic. f_equal. apply map_ext. intro j.
  f_equal. apply map_ext. intro i. unfold fetch.
  destruct (inside s (cvFloor x - 1 + Z.of_nat i) (cvFloor y - 1 + Z.of_nat j)).
  - reflexivity.
  - apply pix_scale_zero.
Qed.

(** C7 (amended): out-of-bounds coordinates never make the resampler raise:
    for a source of non-zero area and a map of h x w entries (h, w >= 1) it
    returns a raster of h x w pixels whatever the coordinates are, and
    [unwarp] always calls it with the constant border policy and border value
    zero.  Under that policy the nearest mode writes the source pixel at the
    ROUNDED coordinate when that is inside the source and the zero fill value
    otherwise; the smooth mode writes the weighted sum of the 4x4
    neighbourhood in which every tap outside the source counts as zero (not
    as the nearest edge pixel), which is the zero fill value when the whole
    neighbourhood is outside (x < -2, x >= width + 1, y < -2 or
    y >= height + 1). *)
Theorem remap_border_policy
        (kernel : R -> nat -> R) (c : RemapCall) (h w : nat) :
  call_borderMode c = BORDER_CONSTANT ->
  call_borderValue c = zero_pixel ->
  ~ zero_area (call_src c) ->
  (1 <= h)%nat -> (1 <= w)%nat ->
  Np.has_shape (call_map1 c) h w ->
  Np.has_shape (call_map2 c) h w ->
  (forall (img : Raster) (uw : Z) (cx cy rmin rmax shift : R) (interp : string)
          (c' : RemapCall),
      unwarp_call img uw cx cy rmin rmax shift interp = Ok c' ->
      call_borderMode c' = BORDER_CONSTANT /\ call_borderValue c' = zero_pixel) /\
  exists dst : Raster,
    cv2_remap kernel c = Ok dst /\
    Np.has_shape dst h w /\
    forall x y : Z, (0 <= x < Z.of_nat w)%Z -> (0 <= y < Z.of_nat h)%Z ->
      let s := call_src c in
      let mx := Np.item (call_map1 c) y x in
      let my := Np.item (call_map2 c) y x in
      (call_interpolation c = INTER_NEAREST ->
         pixel_at dst x y
         = if inside s (cvRound mx) (cvRound my)
           then pixel_at s (cvRound mx) (cvRound my)
           else zero_pixel) /\
      (call_interpolation c = INTER_CUBIC ->
         pixel_at dst x y
         = pix_sum
             (map (fun j =>
                     pix_sum
                       (map (fun i =>
                               if inside s (cvFloor mx - 1 + Z.of_nat i)
                                           (cvFloor my - 1 + Z.of_nat j)
                               then pix_scale
                                      (kernel (my - IZR (cvFloor my)) j
                                       * kernel (mx - IZR (cvFloor mx)) i)
                                      (pixel_at s (cvFloor mx - 1 + Z.of_nat i)
                                                  (cvFloor my - 1 + Z.of_nat j))
                               else zero_pixel)
                            (seq 0 4)))
                  (seq 0 4)) /\
         (mx < -2 \/ IZR (cols s) + 1 <= mx \/
          my < -2 \/ IZR (rows s) + 1 <= my ->
          pixel_at dst x y = zero_pixel)).
Proof.
  intros Hbm Hbv Hsrc Hh Hw S1 S2.
  split.
  { intros img uw cx cy rmin rmax shift interp c' Hc.
    unfold unwarp_call in Hc.
    destruct (unw_h_of uw) as [uh|e]; cbn [bind] in Hc; [|discriminate].
    destruct (build_map_default uw uh cx cy rmin rmax shift) as [m1 m2].
    injection Hc as <-. split; reflexivity. }
  exists (remap_pixels kernel c).
  split.
  { apply cv2_remap_ok.
    - now apply zero_areab_false.
    - apply (no_entries_false _ _ _ S1); assumption. }
  split; [now apply remap_pixels_shape|].
  intros x y Hx Hy s mx my.
  rewrite (remap_pixels_pixel kernel c h w x y S1 S2 Hx Hy).
  rewrite Hbm, Hbv. fold s. fold mx. fold my.
  split.
  - intro Hm. rewrite Hm. cbn [sample]. unfold sample_nearest, fetch.
    destruct (inside s (cvRound mx) (cvRound my)); reflexivity.
  - intro Hm. rewrite Hm. cbn [sample]. split.
    + apply sample_cubic_padded.
    + intro Hout. now apply sample_cubic_all_outside.
Qed.

Lemma remap_border_policy_witness :
  exists dst : Raster,
    cv2_remap cubic_coeffs
      (mkRemapCall sample_raster [[-3; 1]] [[0; 1]]
                   INTER_CUBIC BORDER_CONSTANT zero_pixel) = Ok dst /\
    Np.has_shape dst 1 2.
Proof.
  destruct (remap_border_policy cubic_coeffs
              (mkRemapCall sample_raster [[-3; 1]] [[0; 1]]
                           INTER_CUBIC BORDER_CONSTANT zero_pixel) 1 2
              eq_refl eq_refl
              ltac:(intros [H|H]; discriminate H)
              ltac:(lia) ltac:(lia)
              ltac:(split; [reflexivity | repeat constructor])
              ltac:(split; [reflexivity | repeat constructor]))
    as [_ [dst [Hd [Hs _]]]].
  exists dst. split; [exact Hd | exact Hs].
Defined.

(** *** The interpolation mode *)

(** C10: every mode string other than exactly "nearest" makes [unwarp]
    perform the cubic interpolation: the result is that of the resampler
    called in the cubic mode, every pixel of a returned raster is the cubic
    sample at its map entry, the result equals that for "cubic", and no
    string is rejected (the call raises exactly when the call with "nearest"
    raises). *)
Theorem unwarp_mode_fallback
        (kernel : R -> nat -> R) (img : Raster) (w : Z)
        (cx cy rmin rmax shift : R) (interp : string) :
  interp <> "nearest"%string ->
  interp_mode interp = INTER_CUBIC /\
  unwarp kernel img w cx cy rmin rmax shift interp
    = unwarp kernel img w cx cy rmin rmax shift "cubic" /\
  (forall h : Z, unw_h_of w = Ok h ->
     unwarp kernel img w cx cy rmin rmax shift interp
     = cv2_remap kernel
         (mkRemapCall img
            (fst (build_map_default w h cx cy rmin rmax shift))
            (snd (build_map_default w h cx cy rmin rmax shift))
            INTER_CUBIC BORDER_CONSTANT zero_pixel)) /\
  (forall (pano : Raster) (h : Z),
     unwarp kernel img w cx cy rmin rmax shift interp = Ok pano ->
     unw_h_of w = Ok h ->
     forall x y : Z, (0 <= x < w)%Z -> (0 <= y < h)%Z ->
       pixel_at pano x y
       = sample_cubic kernel BORDER_CONSTANT zero_pixel img
           (Np.item (fst (build_map_default w h cx cy rmin rmax shift)) y x)
           (Np.item (snd (build_map_default w h cx cy rmin rmax shift)) y x)) /\
  raised (unwarp_call img w cx cy rmin rmax shift interp)
    = raised (unwarp_call img w cx cy rmin rmax shift "nearest") /\
  raised (unwarp kernel img w cx cy rmin rmax shift interp)
    = raised (unwarp kernel img w cx cy rmin rmax shift "nearest").
Proof.
  intro Hne.
  assert (Hm : interp_mode interp = INTER_CUBIC).
  { unfold interp_mode. destruct (String.eqb_spec interp "nearest") as [E|_].
    - contradiction.
    - reflexivity. }
  assert (Hc : unwarp_call img w cx cy rmin rmax shift interp
               = unwarp_call img w cx cy rmin rmax shift "cubic").
  { unfold unwarp_call. rewrite Hm. reflexivity. }
  assert (Hr : forall h : Z, unw_h_of w = Ok h ->
     unwarp kernel img w cx cy rmin rmax shift interp
     = cv2_remap kernel
         (mkRemapCall img
            (fst (build_map_default w h cx cy rmin rmax shift))
            (snd (build_map_default w h cx cy rmin rmax shift))
            INTER_CUBIC BORDER_CONSTANT zero_pixel)).
  { intros h Hh. unfold unwarp.
    rewrite (unwarp_call_ok _ _ _ _ _ _ _ _ _ Hh), Hm. reflexivity. }
  split; [exact Hm|].
  split; [unfold unwarp; now rewrite Hc|].
  split; [exact Hr|].
  split.
  { intros pano h Hu Hh x y Hx Hy.
    rewrite (Hr h Hh) in Hu.
    apply cv2_remap_accepted in Hu. destruct Hu as [_ [_ ->]].
    destruct (build_map_shape w h cx cy rmin rmax shift
                Y_WARP_A Y_WARP_B Y_WARP_C) as [S1 S2].
    fold (build_map_default w h cx cy rmin rmax shift) in S1, S2.
    rewrite (remap_pixels_pixel kernel _ (Z.to_nat h) (Z.to_nat w) x y)
      by (cbn [call_map1 call_map2]; try assumption; lia).
    reflexivity. }
  split; [now rewrite !unwarp_call_raised|].
  unfold unwarp.
  destruct (unw_h_of w) as [h|e] eqn:Hh.
  - rewrite !(unwarp_call_ok _ _ _ _ _ _ _ _ _ Hh). cbn [bind].
    unfold cv2_remap. cbn [call_src call_map1].
    destruct (zero_areab img); [reflexivity|].
    destruct (no_entries _); reflexivity.
  - unfold unwarp_call. rewrite Hh. reflexivity.
Qed.

Lemma unwarp_mode_fallback_witness :
  interp_mode "Nearest" = INTER_CUBIC /\
  unwarp cubic_coeffs sample_raster 8 1 1 0 1 0 "Nearest"
    = unwarp cubic_coeffs sample_raster 8 1 1 0 1 0 "cubic" /\
  (forall h : Z, unw_h_of 8 = Ok h ->
     unwarp cubic_coeffs sample_raster 8 1 1 0 1 0 "Nearest"
     = cv2_remap cubic_coeffs
         (mkRemapCall sample_raster
            (fst (build_map_default 8 h 1 1 0 1 0))
            (snd (build_map_default 8 h 1 1 0 1 0))
            INTER_CUBIC BORDER_CONSTANT zero_pixel)).
Proof.
  pose proof (unwarp_mode_fallback cubic_coeffs sample_raster 8 1 1 0 1 0
                "Nearest" ltac:(discriminate)) as H.
  split; [exact (proj1 H)|].
  split; [exact (proj1 (proj2 H)) | exact (proj1 (proj2 (proj2 H)))].
Defined.

(* ================================================================= *)
(** ** Further properties of the map builder *)

(** Both arrays have max(unw_h,0) rows of max(unw_w,0) entries, whatever the
    arguments; a dimension that is zero or negative gives arrays without
    entries. *)
Theorem build_map_dimensions
        (unw_w unw_h : Z) (cx cy rmin rmax shift yA yB yC : R) :
  let m := build_map unw_w unw_h cx cy rmin rmax shift yA yB yC in
  Np.has_shape (fst m) (Z.to_nat unw_h) (Z.to_nat unw_w) /\
  Np.has_shape (snd m) (Z.to_nat unw_h) (Z.to_nat unw_w) /\
  ((unw_w <= 0 \/ unw_h <= 0)%Z -> concat (fst m) = [] /\ concat (snd m) = []).
Proof.
  intro m.
  destruct (build_map_shape unw_w unw_h cx cy rmin rmax shift yA yB yC)
    as [S1 S2].
  split; [exact S1|]. split; [exact S2|].
  intro Hz.
  assert (Hn : (Z.to_nat unw_h = 0 \/ Z.to_nat unw_w = 0)%nat) by lia.
  split; eapply has_shape_no_entries; eauto.
Qed.

(** Every entry of row y lies on one circle around the centre: its squared
    distance from (cx, cy) is the square of the row's radius, whatever the
    column. *)
Theorem build_map_row_on_circle
        (unw_w unw_h : Z) (cx cy rmin rmax shift yA yB yC : R) (x y : Z) :
  (0 <= x < unw_w)%Z -> (0 <= y < unw_h)%Z ->
  let m := build_map unw_w unw_h cx cy rmin rmax shift yA yB yC in
  let t := IZR y / IZR unw_h in
  let radius := (yA * t ^ 2 + yB * t + yC) * (rmax - rmin) + rmin in
  (Np.item (fst m) y x - cx) ^ 2 + (Np.item (snd m) y x - cy) ^ 2 = radius ^ 2.
Proof.
  intros Hx Hy m t radius.
  destruct (build_map_item unw_w unw_h cx cy rmin rmax shift yA yB yC x y Hx Hy)
    as [Ex Ey].
  cbv zeta in Ex, Ey. fold t in Ex, Ey. fold radius in Ex, Ey.
  unfold m. rewrite Ex, Ey.
  set (a := 0 - IZR x / IZR unw_w * (2 * PI) + shift).
  pose proof (sin2_cos2 a) as Hsc. unfold Rsqr in Hsc.
  replace ((cx + radius * cos a - cx) ^ 2 + (cy + radius * sin a - cy) ^ 2)
    with (radius ^ 2 * (sin a * sin a + cos a * cos a)) by ring.
  rewrite Hsc. ring.
Qed.

Lemma build_map_row_on_circle_witness :
  (Np.item (fst (build_map 8 2 100 90 10 50 0 Y_WARP_A Y_WARP_B Y_WARP_C)) 1 5
   - 100) ^ 2
  + (Np.item (snd (build_map 8 2 100 90 10 50 0 Y_WARP_A Y_WARP_B Y_WARP_C)) 1 5
     - 90) ^ 2
  = ((Y_WARP_A * (IZR 1 / IZR 2) ^ 2 + Y_WARP_B * (IZR 1 / IZR 2) + Y_WARP_C)
     * (50 - 10) + 10) ^ 2.
Proof.
  apply (build_map_row_on_circle 8 2 100 90 10 50 0
           Y_WARP_A Y_WARP_B Y_WARP_C 5 1); lia.
Defined.

Lemma cos_Zperiod (a : R) (q : Z) : cos (a + 2 * IZR q * PI) = cos a.
Proof.
  destruct (Z_le_gt_dec 0 q) as [Hq|Hq].
  - rewrite <- (Z2Nat.id q Hq), <- INR_IZR_INZ. apply cos_period.
  - rewrite <- (cos_period (a + 2 * IZR q * PI) (Z.to_nat (- q))).
    rewrite INR_IZR_INZ, Z2Nat.id by lia. rewrite opp_IZR.
    f_equal. ring.
Qed.

Lemma sin_Zperiod (a : R) (q : Z) : sin (a + 2 * IZR q * PI) = sin a.
Proof.
  destruct (Z_le_gt_dec 0 q) as [Hq|Hq].
  - rewrite <- (Z2Nat.id q Hq), <- INR_IZR_INZ. apply sin_period.
  - rewrite <- (sin_period (a + 2 * IZR q * PI) (Z.to_nat (- q))).
    rewrite INR_IZR_INZ, Z2Nat.id by lia. rewrite opp_IZR.
    f_equal. ring.
Qed.

(** Panning: adding k column steps (k * 2*pi / unw_w) to the rotation offset
    shifts the columns of both arrays cyclically by k: column x of the rotated
    map is column (x - k) mod unw_w of the original map. *)
Theorem build_map_rotation_shifts_columns
        (unw_w unw_h : Z) (cx cy rmin rmax shift yA yB yC : R) (k x y : Z) :
  (0 <= x < unw_w)%Z -> (0 <= y < unw_h)%Z ->
  let rotated := build_map unw_w unw_h cx cy rmin rmax
                           (shift + IZR k * (2 * PI / IZR unw_w)) yA yB yC in
  let original := build_map unw_w unw_h cx cy rmin rmax shift yA yB yC in
  Np.item (fst rotated) y x = Np.item (fst original) y ((x - k) mod unw_w) /\
  Np.item (snd rotated) y x = Np.item (snd original) y ((x - k) mod unw_w).
Proof.
  intros Hx Hy rotated original.
  assert (Hw : (0 < unw_w)%Z) by lia.
  assert (Hm : (0 <= (x - k) mod unw_w < unw_w)%Z)
    by (apply Z.mod_pos_bound; exact Hw).
  destruct (build_map_item unw_w unw_h cx cy rmin rmax
              (shift + IZR k * (2 * PI / IZR unw_w)) yA yB yC x y Hx Hy)
    as [Rx Ry].
  destruct (build_map_item unw_w unw_h cx cy rmin rmax shift yA yB yC
              ((x - k) mod unw_w) y Hm Hy) as [Ox Oy].
  cbv zeta in Rx, Ry, Ox, Oy.
  unfold rotated, original. rewrite Rx, Ry, Ox, Oy.
  assert (HwR : IZR unw_w <> 0) by (apply not_0_IZR; lia).
  assert (Ea : 0 - IZR ((x - k) mod unw_w) / IZR unw_w * (2 * PI) + shift
               = (0 - IZR x / IZR unw_w * (2 * PI)
                  + (shift + IZR k * (2 * PI / IZR unw_w)))
                 + 2 * IZR ((x - k) / unw_w) * PI).
  { rewrite Z.mod_eq by lia.
    rewrite minus_IZR, mult_IZR, minus_IZR. field. exact HwR. }
  rewrite Ea, cos_Zperiod, sin_Zperiod. split; reflexivity.
Qed.

Lemma build_map_rotation_shifts_columns_witness :
  Np.item (fst (build_map 8 2 100 90 10 50 (0 + IZR 3 * (2 * PI / IZR 8))
                          Y_WARP_A Y_WARP_B Y_WARP_C)) 1 1
  = Np.item (fst (build_map 8 2 100 90 10 50 0 Y_WARP_A Y_WARP_B Y_WARP_C))
            1 ((1 - 3) mod 8) /\
  Np.item (snd (build_map 8 2 100 90 10 50 (0 + IZR 3 * (2 * PI / IZR 8))
                          Y_WARP_A Y_WARP_B Y_WARP_C)) 1 1
  = Np.item (snd (build_map 8 2 100 90 10 50 0 Y_WARP_A Y_WARP_B Y_WARP_C))
            1 ((1 - 3) mod 8).
Proof.
  apply (build_map_rotation_shifts_columns 8 2 100 90 10 50 0
           Y_WARP_A Y_WARP_B Y_WARP_C 3 1 1); lia.
Defined.

(** *** The default radial curve *)

Lemma row_fraction (y h : Z) :
  (0 <= y < h)%Z ->
  0 <= IZR y / IZR h /\ IZR y / IZR h * IZR h = IZR y /\ 1 <= IZR h /\
  IZR y <= IZR h - 1.
Proof.
  intro Hy.
  assert (Hh : 1 <= IZR h) by (apply IZR_le; lia).
  assert (Hy0 : 0 <= IZR y) by (apply IZR_le; lia).
  assert (Hy1 : IZR y <= IZR h - 1)
    by (rewrite <- minus_IZR; apply IZR_le; lia).
  split; [|split; [|split]].
  - apply Rmult_le_pos; [exact Hy0|].
    left. apply Rinv_0_lt_compat. lra.
  - field. lra.
  - exact Hh.
  - exact Hy1.
Qed.

(** With the default coefficients and innerRadius < outerRadius the radius
    grows strictly with the row: a lower row of the panorama samples a larger
    circle of the source, in every column. *)
Theorem default_curve_rows_move_outward
        (unw_w unw_h : Z) (cx cy rmin rmax shift : R) (x y1 y2 : Z) :
  (0 <= x < unw_w)%Z -> (0 <= y1 < y2)%Z -> (y2 < unw_h)%Z ->
  rmin < rmax ->
  let m := build_map_default unw_w unw_h cx cy rmin rmax shift in
  let a := - (IZR x / IZR unw_w) * (2 * PI) + shift in
  let r := fun y : Z =>
             (Y_WARP_A * (IZR y / IZR unw_h) ^ 2
              + Y_WARP_B * (IZR y / IZR unw_h) + Y_WARP_C) * (rmax - rmin)
             + rmin in
  r y1 < r y2 /\
  Np.item (fst m) y1 x = cx + r y1 * cos a /\
  Np.item (snd m) y1 x = cy + r y1 * sin a /\
  Np.item (fst m) y2 x = cx + r y2 * cos a /\
  Np.item (snd m) y2 x = cy + r y2 * sin a.
Proof.
  intros Hx Hy1 Hy2 Hr m a r.
  assert (Hy1' : (0 <= y1 < unw_h)%Z) by lia.
  assert (Hy2' : (0 <= y2 < unw_h)%Z) by lia.
  destruct (build_map_item unw_w unw_h cx cy rmin rmax shift
              Y_WARP_A Y_WARP_B Y_WARP_C x y1 Hx Hy1') as [E1x E1y].
  destruct (build_map_item unw_w unw_h cx cy rmin rmax shift
              Y_WARP_A Y_WARP_B Y_WARP_C x y2 Hx Hy2') as [E2x E2y].
  cbv zeta in E1x, E1y, E2x, E2y.
  assert (Ea : 0 - IZR x / IZR unw_w * (2 * PI) + shift = a)
    by (unfold a; ring).
  rewrite Ea in E1x, E1y, E2x, E2y.
  split.
  - unfold r.
    destruct (row_fraction y1 unw_h Hy1') as [T1 [M1 [Hh _]]].
    destruct (row_fraction y2 unw_h Hy2') as [T2 [M2 _]].
    set (t1 := IZR y1 / IZR unw_h) in *.
    set (t2 := IZR y2 / IZR unw_h) in *.
    assert (Hlt : IZR y1 < IZR y2) by (apply IZR_lt; lia).
    assert (Ht : t1 < t2).
    { apply Rmult_lt_reg_r with (IZR unw_h); [lra|]. rewrite M1, M2. exact Hlt. }
    assert (Hf : Y_WARP_A * t1 ^ 2 + Y_WARP_B * t1 + Y_WARP_C
                 < Y_WARP_A * t2 ^ 2 + Y_WARP_B * t2 + Y_WARP_C).
    { unfold Y_WARP_A, Y_WARP_B, Y_WARP_C.
      assert (Hsq : t1 ^ 2 < t2 ^ 2) by nra.
      lra. }
    apply Rplus_lt_compat_r. apply Rmult_lt_compat_r; [lra | exact Hf].
  - unfold m, build_map_default.
    repeat split; assumption.
Qed.

Lemma default_curve_rows_move_outward_witness :
  (Y_WARP_A * (IZR 0 / IZR 2) ^ 2 + Y_WARP_B * (IZR 0 / IZR 2) + Y_WARP_C)
    * (50 - 10) + 10
  < (Y_WARP_A * (IZR 1 / IZR 2) ^ 2 + Y_WARP_B * (IZR 1 / IZR 2) + Y_WARP_C)
    * (50 - 10) + 10.
Proof.
  exact (proj1 (default_curve_rows_move_outward 8 2 100 90 10 50 0 3 0 1
                  ltac:(lia) ltac:(lia) ltac:(lia) ltac:(lra))).
Defined.

(** With the default coefficients and innerRadius < outerRadius the first row
    uses the radius innerRadius - 0.0028 * (outerRadius - innerRadius), which
    is below innerRadius: row 0 samples inside the inner circle. *)
Theorem default_curve_first_row_inside_inner
        (unw_w unw_h : Z) (cx cy rmin rmax shift : R) (x : Z) :
  (0 <= x < unw_w)%Z -> (1 <= unw_h)%Z ->
  rmin < rmax ->
  let m := build_map_default unw_w unw_h cx cy rmin rmax shift in
  let a := - (IZR x / IZR unw_w) * (2 * PI) + shift in
  let r0 := rmin - 28 / 10000 * (rmax - rmin) in
  r0 < rmin /\
  Np.item (fst m) 0 x = cx + r0 * cos a /\
  Np.item (snd m) 0 x = cy + r0 * sin a /\
  (28 / 10000 * (rmax - rmin) < 2 * rmin ->
   (Np.item (fst m) 0 x - cx) ^ 2 + (Np.item (snd m) 0 x - cy) ^ 2 < rmin ^ 2).
Proof.
  intros Hx Hh Hr m a r0.
  assert (Hy : (0 <= 0 < unw_h)%Z) by lia.
  destruct (build_map_item unw_w unw_h cx cy rmin rmax shift
              Y_WARP_A Y_WARP_B Y_WARP_C x 0 Hx Hy) as [Ex Ey].
  cbv zeta in Ex, Ey.
  assert (Ea : 0 - IZR x / IZR unw_w * (2 * PI) + shift = a)
    by (unfold a; ring).
  assert (Er : (Y_WARP_A * (IZR 0 / IZR unw_h) ^ 2
                + Y_WARP_B * (IZR 0 / IZR unw_h) + Y_WARP_C) * (rmax - rmin)
               + rmin = r0).
  { unfold r0, Y_WARP_A, Y_WARP_B, Y_WARP_C, Rdiv. rewrite Rmult_0_l. ring. }
  rewrite Ea, Er in Ex, Ey.
  fold (build_map_default unw_w unw_h cx cy rmin rmax shift) in Ex, Ey.
  fold m in Ex, Ey.
  split; [unfold r0; lra|]. split; [exact Ex|]. split; [exact Ey|].
  intro Hsmall. rewrite Ex, Ey.
  pose proof (sin2_cos2 a) as Hsc. unfold Rsqr in Hsc.
  replace ((cx + r0 * cos a - cx) ^ 2 + (cy + r0 * sin a - cy) ^ 2)
    with (r0 ^ 2 * (sin a * sin a + cos a * cos a)) by ring.
  rewrite Hsc. unfold r0. nra.
Qed.

Lemma default_curve_first_row_inside_inner_witness :
  10 - 28 / 10000 * (50 - 10) < 10 /\
  Np.item (fst (build_map_default 8 2 100 90 10 50 0)) 0 3
    = 100 + (10 - 28 / 10000 * (50 - 10))
            * cos (- (IZR 3 / IZR 8) * (2 * PI) + 0) /\
  Np.item (snd (build_map_default 8 2 100 90 10 50 0)) 0 3
    = 90 + (10 - 28 / 10000 * (50 - 10))
           * sin (- (IZR 3 / IZR 8) * (2 * PI) + 0) /\
  (28 / 10000 * (50 - 10) < 2 * 10 ->
   (Np.item (fst (build_map_default 8 2 100 90 10 50 0)) 0 3 - 100) ^ 2
   + (Np.item (snd (build_map_default 8 2 100 90 10 50 0)) 0 3 - 90) ^ 2
   < 10 ^ 2).
Proof.
  apply (default_curve_first_row_inside_inner 8 2 100 90 10 50 0 3);
    [lia | lia | lra].
Defined.

Lemma default_fraction_margin (t : R) :
  0 <= t <= 916 / 917 ->
  - (28 / 10000) <= Y_WARP_A * t ^ 2 + Y_WARP_B * t + Y_WARP_C
  <= 1 - 6 / 10000.
Proof.
  intros [H0 H1]. unfold Y_WARP_A, Y_WARP_B, Y_WARP_C.
  assert (Hsq : t ^ 2 <= (916 / 917) ^ 2) by nra.
  assert (Hsq0 : 0 <= t ^ 2) by nra.
  split; lra.
Qed.

(** With the default coefficients, 0 <= innerRadius < outerRadius and at most
    917 rows (the largest height the width control 400..6000 gives), the
    radius of every row stays between innerRadius - 0.0028 * ring and
    outerRadius - 0.0006 * ring, where ring = outerRadius - innerRadius: no
    entry is farther from the centre than outerRadius - 0.0006 * ring. *)
Theorem default_curve_inside_outer_circle
        (unw_w unw_h : Z) (cx cy rmin rmax shift : R) (x y : Z) :
  (0 <= x < unw_w)%Z -> (0 <= y < unw_h)%Z -> (unw_h <= 917)%Z ->
  0 <= rmin < rmax ->
  let m := build_map_default unw_w unw_h cx cy rmin rmax shift in
  let t := IZR y / IZR unw_h in
  let radius := (Y_WARP_A * t ^ 2 + Y_WARP_B * t + Y_WARP_C) * (rmax - rmin)
                + rmin in
  let a := - (IZR x / IZR unw_w) * (2 * PI) + shift in
  rmin - 28 / 10000 * (rmax - rmin) <= radius
    <= rmax - 6 / 10000 * (rmax - rmin) /\
  Np.item (fst m) y x = cx + radius * cos a /\
  Np.item (snd m) y x = cy + radius * sin a /\
  (Np.item (fst m) y x - cx) ^ 2 + (Np.item (snd m) y x - cy) ^ 2
    <= (rmax - 6 / 10000 * (rmax - rmin)) ^ 2.
Proof.
  intros Hx Hy Hh Hr m t radius a.
  destruct (build_map_entry unw_w unw_h cx cy rmin rmax shift
              Y_WARP_A Y_WARP_B Y_WARP_C x y Hx Hy) as [Ex Ey].
  fold (build_map_default unw_w unw_h cx cy rmin rmax shift) in Ex, Ey.
  fold m in Ex, Ey. fold t in Ex, Ey. fold radius in Ex, Ey. fold a in Ex, Ey.
  destruct (row_fraction y unw_h Hy) as [T0 [TM [HhR Hy1]]].
  fold t in T0, TM.
  assert (HhR' : IZR unw_h <= 917) by (apply IZR_le; exact Hh).
  assert (Ht : t <= 916 / 917).
  { apply Rmult_le_reg_r with (IZR unw_h); [lra|]. rewrite TM. lra. }
  pose proof (default_fraction_margin t (conj T0 Ht)) as [Hf0 Hf1].
  assert (Hrad : rmin - 28 / 10000 * (rmax - rmin) <= radius
                 <= rmax - 6 / 10000 * (rmax - rmin)).
  { unfold radius.
    set (f := Y_WARP_A * t ^ 2 + Y_WARP_B * t + Y_WARP_C) in *.
    split; nra. }
  split; [exact Hrad|]. split; [exact Ex|]. split; [exact Ey|].
  rewrite Ex, Ey.
  pose proof (sin2_cos2 a) as Hsc. unfold Rsqr in Hsc.
  replace ((cx + radius * cos a - cx) ^ 2 + (cy + radius * sin a - cy) ^ 2)
    with (radius ^ 2 * (sin a * sin a + cos a * cos a)) by ring.
  rewrite Hsc.
  set (r0 := rmax - 6 / 10000 * (rmax - rmin)) in *.
  assert (Hlo : - r0 <= radius) by (unfold r0; lra).
  assert (Hprod : 0 <= (r0 - radius) * (r0 + radius))
    by (apply Rmult_le_pos; lra).
  nra.
Qed.

Lemma default_curve_inside_outer_circle_witness :
  (Np.item (fst (build_map_default 8 2 100 90 10 50 0)) 1 3 - 100) ^ 2
  + (Np.item (snd (build_map_default 8 2 100 90 10 50 0)) 1 3 - 90) ^ 2
  <= (50 - 6 / 10000 * (50 - 10)) ^ 2.
Proof.
  pose proof (default_curve_inside_outer_circle 8 2 100 90 10 50 0 3 1
                ltac:(lia) ltac:(lia) ltac:(lia) ltac:(lra)) as H.
  cbv zeta in H. exact (proj2 (proj2 (proj2 H))).
Defined.

(* ================================================================= *)
(** ** Further properties of the panorama height *)

Lemma exactness_check_range :
  forallb exactness_check (zrange 1 (Z.to_nat 10000)) = true.
Proof. vm_compute. reflexivity. Qed.

(** For every width from 1 to 10000 the computed height is a nearest integer
    of width * 55 / 360 (72*h differs from 11*w by at most 36).  It is the
    exact quotient rounded with ties to even, except at ten widths (756, 1620,
    3060, ...) where the binary64 quotient falls just below the half-integer
    and the height is one less.  Over the range 400..6000 of the width control
    the height stays between 61 and 917. *)
Theorem unw_h_nearest_integer (w : Z) :
  (1 <= w <= 10000)%Z ->
  exists h : Z,
    unw_h_of w = Ok h /\
    (-36 <= 72 * h - 11 * w <= 36)%Z /\
    h = expected_height w /\
    ((400 <= w <= 6000)%Z -> (61 <= h <= 917)%Z).
Proof.
  intro Hw.
  pose proof (proj1 (forallb_forall _ _) exactness_check_range w) as Hc.
  specialize (Hc (in_zrange (Z.to_nat 10000) 1 w ltac:(lia))).
  unfold exactness_check in Hc.
  destruct (unw_h_of w) as [h|e]; [|discriminate].
  apply andb_prop in Hc. destruct Hc as [Hc Hhi].
  apply andb_prop in Hc. destruct Hc as [Heq Hlo].
  apply Z.eqb_eq in Heq. apply Z.leb_le in Hlo. apply Z.leb_le in Hhi.
  exists h. split; [reflexivity|]. split; [lia|]. split; [exact Heq|].
  intro Hgui. lia.
Qed.

Lemma unw_h_nearest_integer_witness :
  exists h : Z,
    unw_h_of 1620 = Ok h /\
    (-36 <= 72 * h - 11 * 1620 <= 36)%Z /\
    h = expected_height 1620 /\
    ((400 <= 1620 <= 6000)%Z -> (61 <= h <= 917)%Z).
Proof. apply (unw_h_nearest_integer 1620). lia. Defined.

(* ================================================================= *)
(** ** The window *)

Import BloggieGUI.

Lemma refresh_impl_same_parameters (kernel : R -> nat -> R) (g : Gui) :
  same_parameters g (_refresh_impl kernel g).
Proof.
  unfold _refresh_impl. cbn [img_bgr set_pending].
  destruct (img_bgr g) as [img|]; [|repeat split].
  destruct (_draw_left_overlay (set_pending g None)); [|repeat split].
  destruct (_compute_pano kernel (set_pending g None) img); repeat split.
Qed.

Lemma refresh_same_parameters (kernel : R -> nat -> R) (force : bool) (g : Gui) :
  same_parameters g (refresh kernel force g).
Proof.
  unfold refresh. destruct force; cbn [negb].
  - apply refresh_impl_same_parameters.
  - destruct (_pending g); repeat split.
Qed.

Lemma unwarp_1200 (kernel : R -> nat -> R) (img : Raster)
      (cx cy rmin rmax shift : R) (interp : string) :
  (1 <= rows img)%Z -> (1 <= cols img)%Z ->
  exists pano : Raster,
    unwarp kernel img 1200 cx cy rmin rmax shift interp = Ok pano /\
    Np.has_shape pano 183 1200.
Proof.
  intros Hr Hc.
  assert (Hh : unw_h_of 1200 = Ok 183%Z) by (vm_compute; reflexivity).
  assert (Hs : zero_areab img = false)
    by (apply zero_areab_false; unfold zero_area; lia).
  rewrite (unwarp_ok kernel img 1200 cx cy rmin rmax shift interp 183
             Hh Hs ltac:(lia) ltac:(lia)).
  eexists. split; [reflexivity|].
  destruct (build_map_shape 1200 183 cx cy rmin rmax shift
              Y_WARP_A Y_WARP_B Y_WARP_C) as [S1 S2].
  apply remap_pixels_shape; assumption.
Qed.

Lemma cvRound_nonneg (x : R) : 0 <= x -> (0 <= cvRound x)%Z.
Proof.
  intro Hx. pose proof (Int_part_bounds x) as [Hf0 Hf1].
  assert (Hlo : (0 < Int_part x + 1)%Z)
    by (apply lt_IZR; rewrite plus_IZR; lra).
  unfold cvRound.
  destruct (Rlt_dec (x - IZR (Int_part x)) (1 / 2)); [lia|].
  destruct (Rlt_dec (1 / 2) (x - IZR (Int_part x))); [lia|].
  destruct (Z.even (Int_part x)); lia.
Qed.

Lemma draw_left_overlay_ok (g : Gui) :
  0 <= rmin g -> 0 <= rmax g -> _draw_left_overlay g = Ok tt.
Proof.
  intros Hi Ho. unfold _draw_left_overlay.
  pose proof (cvRound_nonneg _ Hi) as Ri.
  pose proof (cvRound_nonneg _ Ho) as Ro.
  destruct (Z.ltb_spec (cvRound (rmax g)) 0); [lia|].
  destruct (Z.ltb_spec (cvRound (rmin g)) 0); [lia|].
  reflexivity.
Qed.

Lemma refresh_impl_pending (kernel : R -> nat -> R) (g : Gui) :
  _pending (_refresh_impl kernel g) = None /\
  after_queue (_refresh_impl kernel g) = after_queue g /\
  after_next (_refresh_impl kernel g) = after_next g /\
  _dragging (_refresh_impl kernel g) = _dragging g.
Proof.
  unfold _refresh_impl. cbn [img_bgr set_pending].
  destruct (img_bgr g) as [img|]; [|repeat split].
  destruct (_draw_left_overlay (set_pending g None)); [|repeat split].
  destruct (_compute_pano kernel (set_pending g None) img); repeat split.
Qed.

Lemma refresh_impl_renders (kernel : R -> nat -> R) (g : Gui) (img pano : Raster) :
  img_bgr g = Some img ->
  0 <= rmin g -> 0 <= rmax g ->
  unwarp kernel img (pano_w g) (cx g) (cy g) (rmin g) (rmax g)
         (radians (shift_deg g)) (interp g) = Ok pano ->
  right_pano (_refresh_impl kernel g) = Some pano.
Proof.
  intros Hi Hrmin Hrmax Hu. unfold _refresh_impl. cbn [img_bgr set_pending].
  rewrite Hi.
  rewrite (draw_left_overlay_ok (set_pending g None)) by assumption.
  unfold _compute_pano, set_pending.
  cbn [pano_w cx cy rmin rmax shift_deg interp].
  rewrite Hu. reflexivity.
Qed.

(** Loading an image that has at least one pixel sets valid parameters: the
    radii satisfy 0 < rmin < rmax, the centre lies strictly inside the image,
    the width is 1200, the rotation 0 and the mode "nearest"; the panorama is
    rendered at once and has 183 rows of 1200 pixels.  A cancelled dialog or
    an undecodable file leaves the state as it was. *)
Theorem load_image_defaults
        (kernel : R -> nat -> R) (img : Raster) (g : Gui) :
  (1 <= rows img)%Z -> (1 <= cols img)%Z ->
  let g' := load_image kernel (Some (Some img)) g in
  img_bgr g' = Some img /\ h g' = rows img /\ w g' = cols img /\
  0 < rmin g' < rmax g' /\
  0 < cx g' < IZR (w g') /\ 0 < cy g' < IZR (h g') /\
  pano_w g' = 1200%Z /\ shift_deg g' = 0 /\ interp g' = "nearest"%string /\
  _pending g' = None /\
  (exists pano : Raster, right_pano g' = Some pano /\ Np.has_shape pano 183 1200) /\
  load_image kernel None g = g /\ load_image kernel (Some None) g = g.
Proof.
  intros Hr Hc g'.
  assert (HrR : 1 <= IZR (rows img)) by (apply IZR_le; exact Hr).
  assert (HcR : 1 <= IZR (cols img)) by (apply IZR_le; exact Hc).
  unfold g', load_image, refresh. cbn [negb].
  match goal with
  | |- context [_refresh_impl kernel ?st] => set (g0 := st)
  end.
  destruct (refresh_impl_same_parameters kernel g0)
    as [Ei [Eh [Ew [Ecx [Ecy [Ermin [Ermax [Epw [Esd Ein]]]]]]]]].
  rewrite Ei, Eh, Ew, Ecx, Ecy, Ermin, Ermax, Epw, Esd, Ein.
  unfold g0. cbn [img_bgr h w cx cy rmin rmax pano_w shift_deg interp].
  split; [reflexivity|]. split; [reflexivity|]. split; [reflexivity|].
  split; [lra|].
  split.
  { destruct (Z.ltb_spec 1400 (cols img)) as [Hlt|Hge].
    - assert (1401 <= IZR (cols img)) by (apply IZR_le; lia). lra.
    - lra. }
  split.
  { destruct (Z.ltb_spec 1000 (rows img)) as [Hlt|Hge].
    - assert (1001 <= IZR (rows img)) by (apply IZR_le; lia). lra.
    - lra. }
  split; [reflexivity|]. split; [reflexivity|]. split; [reflexivity|].
  split; [|split; [|split; reflexivity]].
  - apply refresh_impl_pending.
  - destruct (unwarp_1200 kernel img (cx g0) (cy g0) (rmin g0) (rmax g0)
                (radians (shift_deg g0)) (interp g0) Hr Hc) as [pano [Hp Hs]].
    exists pano. split; [|exact Hs].
    apply (refresh_impl_renders kernel g0 img pano);
      [reflexivity | unfold g0; cbn [rmin]; lra
       | unfold g0; cbn [rmax]; lra | exact Hp].
Qed.

Lemma load_image_defaults_witness :
  0 < rmin (load_image cubic_coeffs (Some (Some sample_raster)) init)
    < rmax (load_image cubic_coeffs (Some (Some sample_raster)) init).
Proof.
  pose proof (load_image_defaults cubic_coeffs sample_raster init
                ltac:(cbv; discriminate) ltac:(cbv; discriminate)) as H.
  cbv zeta in H. exact (proj1 (proj2 (proj2 (proj2 H)))).
Defined.

(** *** Clicks and keys *)

Lemma cvRound_cases (x : R) :
  (cvRound x = Int_part x /\ x - IZR (Int_part x) <= 1 / 2) \/
  (cvRound x = (Int_part x + 1)%Z /\ 1 / 2 <= x - IZR (Int_part x)).
Proof.
  unfold cvRound.
  destruct (Rlt_dec (x - IZR (Int_part x)) (1 / 2)) as [Hlt|Hge].
  - left. split; [reflexivity | lra].
  - destruct (Rlt_dec (1 / 2) (x - IZR (Int_part x))) as [Hgt|Hle].
    + right. split; [reflexivity | lra].
    + destruct (Z.even (Int_part x)).
      * left. split; [reflexivity | lra].
      * right. split; [reflexivity | lra].
Qed.

Lemma cvRound_between (x : R) (a b : Z) :
  IZR a <= x <= IZR b -> (a <= cvRound x <= b)%Z.
Proof.
  intros [Ha Hb]. pose proof (Int_part_bounds x) as [Hf0 Hf1].
  assert (Hlo : (a < Int_part x + 1)%Z)
    by (apply lt_IZR; rewrite plus_IZR; lra).
  destruct (cvRound_cases x) as [[-> Hd]|[-> Hd]].
  - split; [lia|]. apply le_IZR. lra.
  - split; [lia|].
    assert (Hlt : (Int_part x < b)%Z) by (apply lt_IZR; lra). lia.
Qed.

Lemma round2_between (x : R) (a b : Z) :
  IZR a <= x <= IZR b -> IZR a <= round2 x <= IZR b.
Proof.
  intros [Ha Hb]. unfold round2.
  destruct (cvRound_between (x * 100) (a * 100) (b * 100)) as [Hlo Hhi].
  { rewrite !mult_IZR. lra. }
  apply IZR_le in Hlo. apply IZR_le in Hhi. rewrite mult_IZR in Hlo, Hhi.
  lra.
Qed.

Lemma clamp_between (hi x : R) :
  0 <= hi -> 0 <= Rmax 0 (Rmin hi x) <= hi.
Proof.
  intro Hhi. unfold Rmax, Rmin.
  destruct (Rle_dec hi x); destruct (Rle_dec 0 _); lra.
Qed.

Lemma click_to_image_some (iw ih ex ey : Z) :
  (1 <= iw)%Z -> (1 <= ih)%Z ->
  exists x y : R,
    click_to_image iw ih ex ey = Some (x, y) /\
    0 <= x <= IZR (iw - 1) /\ 0 <= y <= IZR (ih - 1).
Proof.
  intros Hw Hh. unfold click_to_image.
  replace ((iw =? 0)%Z || (ih =? 0)%Z)%bool with false
    by (symmetry; apply orb_false_iff; split; apply Z.eqb_neq; lia).
  eexists. eexists. split; [reflexivity|].
  split; apply clamp_between; apply IZR_le; lia.
Qed.

(** A click on a loaded image of at least one pixel always succeeds and puts
    the centre inside the image, 0 <= cx <= w - 1 and 0 <= cy <= h - 1,
    wherever the click is; the radii, the width, the rotation and the mode
    are not touched.  Without an image a click changes nothing. *)
Theorem click_keeps_center_in_image
        (kernel : R -> nat -> R) (g : Gui) (img : Raster) (ex ey : Z) :
  img_bgr g = Some img -> (1 <= w g)%Z -> (1 <= h g)%Z ->
  exists g' : Gui,
    _update_center_from_click kernel g ex ey = Some g' /\
    0 <= cx g' <= IZR (w g - 1) /\ 0 <= cy g' <= IZR (h g - 1) /\
    img_bgr g' = img_bgr g /\ rmin g' = rmin g /\ rmax g' = rmax g /\
    pano_w g' = pano_w g /\ shift_deg g' = shift_deg g /\
    interp g' = interp g /\
    (forall g0 : Gui, img_bgr g0 = None ->
       _update_center_from_click kernel g0 ex ey = Some g0).
Proof.
  intros Hi Hw Hh. unfold _update_center_from_click at 1. rewrite Hi.
  destruct (click_to_image_some (w g) (h g) ex ey Hw Hh)
    as [x [y [Hc [Bx By]]]].
  rewrite Hc. eexists. split; [reflexivity|].
  destruct (refresh_same_parameters kernel false
              (set_cy (set_cx g (round2 x)) (round2 y)))
    as [Ei [_ [_ [Ecx [Ecy [Ermin [Ermax [Epw [Esd Ein]]]]]]]]].
  rewrite Ei, Ecx, Ecy, Ermin, Ermax, Epw, Esd, Ein.
  cbn [set_cx set_cy img_bgr cx cy rmin rmax pano_w shift_deg interp].
  split; [apply round2_between; lra|].
  split; [apply round2_between; lra|].
  split; [exact Hi|].
  do 5 (split; [reflexivity|]).
  intros g0 H0. unfold _update_center_from_click. now rewrite H0.
Qed.

Lemma click_keeps_center_in_image_witness :
  exists g' : Gui,
    _update_center_from_click cubic_coeffs example_gui 700 (-5) = Some g' /\
    0 <= cx g' <= IZR (2 - 1) /\ 0 <= cy g' <= IZR (2 - 1).
Proof.
  destruct (click_keeps_center_in_image cubic_coeffs example_gui
              sample_raster 700 (-5) eq_refl
              ltac:(cbv; discriminate) ltac:(cbv; discriminate))
    as [g' [Hc [Bx [By _]]]].
  exists g'. split; [exact Hc|]. split; [exact Bx | exact By].
Defined.

Lemma on_key_effect (kernel : R -> nat -> R) (g : Gui) (img : Raster)
      (k : string) :
  img_bgr g = Some img ->
  img_bgr (_on_key kernel g k) = Some img /\
  cx (_on_key kernel g k)
    = (if String.eqb k "Left" then cx g - 25 / 100
       else if String.eqb k "Right" then cx g + 25 / 100 else cx g) /\
  cy (_on_key kernel g k)
    = (if String.eqb k "Up" then cy g - 25 / 100
       else if String.eqb k "Down" then cy g + 25 / 100 else cy g).
Proof.
  intro Hi. unfold _on_key. rewrite Hi.
  match goal with
  | |- context [refresh kernel false ?st] =>
      destruct (refresh_same_parameters kernel false st)
        as [Ei [_ [_ [Ecx [Ecy _]]]]];
      rewrite Ei, Ecx, Ecy
  end.
  destruct (String.eqb_spec k "Left") as [HL|HL];
    destruct (String.eqb_spec k "Right") as [HR|HR];
    destruct (String.eqb_spec k "Up") as [HU|HU];
    destruct (String.eqb_spec k "Down") as [HD|HD];
    subst; try discriminate;
    cbn; (split; [exact Hi|]); split; reflexivity.
Qed.

(** Arrow keys on a loaded image: Left and Right move the centre by exactly a
    quarter pixel in x, Up and Down in y, with no clamping at the image
    border; opposite keys cancel; any other key leaves the centre where it
    is.  Without an image a key changes nothing. *)
Theorem on_key_nudges
        (kernel : R -> nat -> R) (g : Gui) (img : Raster) :
  img_bgr g = Some img ->
  cx (_on_key kernel g "Left") = cx g - 1 / 4 /\
  cx (_on_key kernel g "Right") = cx g + 1 / 4 /\
  cy (_on_key kernel g "Up") = cy g - 1 / 4 /\
  cy (_on_key kernel g "Down") = cy g + 1 / 4 /\
  cx (_on_key kernel (_on_key kernel g "Left") "Right") = cx g /\
  cx (_on_key kernel (_on_key kernel g "Right") "Left") = cx g /\
  cy (_on_key kernel (_on_key kernel g "Up") "Down") = cy g /\
  cy (_on_key kernel (_on_key kernel g "Down") "Up") = cy g /\
  (forall k : string,
      k <> "Left"%string -> k <> "Right"%string ->
      k <> "Up"%string -> k <> "Down"%string ->
      cx (_on_key kernel g k) = cx g /\ cy (_on_key kernel g k) = cy g) /\
  (forall (g0 : Gui) (k : string),
      img_bgr g0 = None -> _on_key kernel g0 k = g0).
Proof.
  intro Hi.
  pose proof (on_key_effect kernel g img "Left" Hi) as [IL [XL YL]].
  pose proof (on_key_effect kernel g img "Right" Hi) as [IR [XR YR]].
  pose proof (on_key_effect kernel g img "Up" Hi) as [IU [XU YU]].
  pose proof (on_key_effect kernel g img "Down" Hi) as [ID [XD YD]].
  cbn in XL, YL, XR, YR, XU, YU, XD, YD.
  pose proof (on_key_effect kernel _ img "Right" IL) as [_ [XLR _]].
  pose proof (on_key_effect kernel _ img "Left" IR) as [_ [XRL _]].
  pose proof (on_key_effect kernel _ img "Down" IU) as [_ [_ YUD]].
  pose proof (on_key_effect kernel _ img "Up" ID) as [_ [_ YDU]].
  cbn in XLR, XRL, YUD, YDU.
  split; [rewrite XL; lra|]. split; [rewrite XR; lra|].
  split; [rewrite YU; lra|]. split; [rewrite YD; lra|].
  split; [rewrite XLR, XL; lra|]. split; [rewrite XRL, XR; lra|].
  split; [rewrite YUD, YU; lra|]. split; [rewrite YDU, YD; lra|].
  split.
  - intros k HL HR HU HD.
    pose proof (on_key_effect kernel g img k Hi) as [_ [X Y]].
    apply String.eqb_neq in HL, HR, HU, HD.
    rewrite HL, HR in X. rewrite HU, HD in Y. split; assumption.
  - intros g0 k H0. unfold _on_key. now rewrite H0.
Qed.

Lemma on_key_nudges_witness :
  cx (_on_key cubic_coeffs (_on_key cubic_coeffs example_gui "Left") "Right")
  = cx example_gui.
Proof.
  exact (proj1 (proj2 (proj2 (proj2 (proj2
           (on_key_nudges cubic_coeffs example_gui sample_raster eq_refl)))))).
Defined.

(** *** The debounced refresh *)

Lemma refresh_idle (kernel : R -> nat -> R) (g : Gui) :
  _pending g = None ->
  _pending (refresh kernel false g) = Some (after_next g) /\
  after_queue (refresh kernel false g) = after_queue g ++ [after_next g] /\
  after_next (refresh kernel false g) = S (after_next g).
Proof.
  intro Hp. unfold refresh. cbn [negb]. rewrite Hp.
  unfold after, set_pending. cbn. repeat split.
Qed.

Lemma refresh_busy (kernel : R -> nat -> R) (g : Gui) (id : nat) :
  _pending g = Some id -> refresh kernel false g = g.
Proof. intro Hp. unfold refresh. cbn [negb]. now rewrite Hp. Qed.

Lemma refresh_burst_state (kernel : R -> nat -> R) (g : Gui) (n : nat) :
  _pending g = None ->
  Nat.iter (S n) (refresh kernel false) g = refresh kernel false g.
Proof.
  intro Hp. induction n as [|n IH]; [reflexivity|].
  change (Nat.iter (S (S n)) (refresh kernel false) g)
    with (refresh kernel false (Nat.iter (S n) (refresh kernel false) g)).
  rewrite IH.
  destruct (refresh_idle kernel g Hp) as [Hp' _].
  apply (refresh_busy kernel _ _ Hp').
Qed.

(** Coalescing: starting with no callback outstanding, any burst of one or
    more refresh requests registers exactly one callback and changes no
    parameter; when Tk runs it, no callback is left and [_pending] is
    cleared.  With an image loaded and both radii non-negative, the right
    label then shows the panorama of the current parameters whenever
    [unwarp] returns one; with an image loaded and a radius that rounds to a
    negative integer, the overlay drawing fails first and the right label
    keeps what it showed. *)
Theorem refresh_burst_renders_once
        (kernel : R -> nat -> R) (g : Gui) (n : nat) :
  _pending g = None -> after_queue g = [] ->
  let burst := Nat.iter (S n) (refresh kernel false) g in
  same_parameters g burst /\
  after_queue burst = [after_next g] /\
  _pending burst = Some (after_next g) /\
  same_parameters g (run_after kernel burst) /\
  after_queue (run_after kernel burst) = [] /\
  _pending (run_after kernel burst) = None /\
  (forall img pano : Raster,
      img_bgr g = Some img ->
      0 <= rmin g -> 0 <= rmax g ->
      unwarp kernel img (pano_w g) (cx g) (cy g) (rmin g) (rmax g)
             (radians (shift_deg g)) (interp g) = Ok pano ->
      right_pano (run_after kernel burst) = Some pano) /\
  (forall img : Raster,
      img_bgr g = Some img ->
      (cvRound (rmin g) < 0 \/ cvRound (rmax g) < 0)%Z ->
      right_pano (run_after kernel burst) = right_pano g).
Proof.
  intros Hp Hq burst. unfold burst.
  rewrite (refresh_burst_state kernel g n Hp).
  destruct (refresh_idle kernel g Hp) as [Hp1 [Hq1 Hn1]].
  rewrite Hq in Hq1. cbn [app] in Hq1.
  pose proof (refresh_same_parameters kernel false g) as Hsame.
  split; [exact Hsame|]. split; [exact Hq1|]. split; [exact Hp1|].
  assert (Hright : right_pano (refresh kernel false g) = right_pano g).
  { unfold refresh. cbn [negb]. rewrite Hp. reflexivity. }
  unfold run_after. rewrite Hq1.
  match goal with
  | |- context [_refresh_impl kernel ?st] => set (g1 := st)
  end.
  assert (Hs1 : same_parameters g g1).
  { unfold g1. destruct Hsame as [A [B [C [D [E [F [G [H [I J]]]]]]]]].
    repeat split; assumption. }
  assert (Hs2 : same_parameters g (_refresh_impl kernel g1)).
  { destruct (refresh_impl_same_parameters kernel g1)
      as [A [B [C [D [E [F [G [H [I J]]]]]]]]].
    destruct Hs1 as [A1 [B1 [C1 [D1 [E1 [F1 [G1 [H1 [I1 J1]]]]]]]]].
    repeat split; congruence. }
  destruct (refresh_impl_pending kernel g1) as [P1 [Q1 _]].
  split; [exact Hs2|]. split; [rewrite Q1; reflexivity|]. split; [exact P1|].
  destruct Hs1 as [A1 [B1 [C1 [D1 [E1 [F1 [G1 [H1 [I1 J1]]]]]]]]].
  split.
  - intros img pano Hi Hrmin Hrmax Hu.
    apply (refresh_impl_renders kernel g1 img pano).
    + congruence.
    + rewrite F1. exact Hrmin.
    + rewrite G1. exact Hrmax.
    + rewrite H1, D1, E1, F1, G1, I1, J1. exact Hu.
  - intros img Hi Hneg.
    unfold _refresh_impl. cbn [img_bgr set_pending].
    replace (img_bgr g1) with (Some img) by congruence.
    unfold _draw_left_overlay. cbn [rmin rmax set_pending].
    replace (rmin g1) with (rmin g) by congruence.
    replace (rmax g1) with (rmax g) by congruence.
    destruct (Z.ltb_spec (cvRound (rmax g)) 0) as [Ho|Ho].
    + cbn [right_pano set_pending]. unfold g1. cbn [right_pano]. exact Hright.
    + destruct (Z.ltb_spec (cvRound (rmin g)) 0) as [Hin|Hin]; [|lia].
      cbn [right_pano set_pending]. unfold g1. cbn [right_pano]. exact Hright.
Qed.

Lemma refresh_burst_renders_once_witness :
  after_queue (Nat.iter 3 (refresh cubic_coeffs false) init) = [after_next init]
  /\ after_queue (run_after cubic_coeffs
                    (Nat.iter 3 (refresh cubic_coeffs false) init)) = [].
Proof.
  pose proof (refresh_burst_renders_once cubic_coeffs init 2
                eq_refl eq_refl) as H.
  cbv zeta in H.
  split.
  - exact (proj1 (proj2 H)).
  - exact (proj1 (proj2 (proj2 (proj2 (proj2 H))))).
Defined.

Lemma debounced_ext (g g' : Gui) :
  _pending g' = _pending g -> after_queue g' = after_queue g ->
  debounced g -> debounced g'.
Proof.
  intros Hp Hq [[P Q]|[id [P Q]]].
  - left. split; congruence.
  - right. exists id. split; congruence.
Qed.

Lemma refresh_debounced (kernel : R -> nat -> R) (g : Gui) :
  debounced g -> debounced (refresh kernel false g).
Proof.
  intros [[P Q]|[id [P Q]]].
  - destruct (refresh_idle kernel g P) as [P1 [Q1 _]].
    right. exists (after_next g). split; [exact P1|].
    rewrite Q1, Q. reflexivity.
  - rewrite (refresh_busy kernel g id P). right. exists id. now split.
Qed.

Lemma run_after_debounced (kernel : R -> nat -> R) (g : Gui) :
  debounced g -> debounced (run_after kernel g).
Proof.
  intros [[P Q]|[id [P Q]]]; unfold run_after; rewrite Q.
  - left. now split.
  - match goal with
    | |- context [_refresh_impl kernel ?st] =>
        destruct (refresh_impl_pending kernel st) as [P1 [Q1 _]]
    end.
    left. split; [exact P1 | rewrite Q1; reflexivity].
Qed.

Lemma update_center_debounced (kernel : R -> nat -> R) (g g' : Gui) (ex ey : Z) :
  debounced g ->
  _update_center_from_click kernel g ex ey = Some g' -> debounced g'.
Proof.
  intros Hd Hc. unfold _update_center_from_click in Hc.
  destruct (img_bgr g); [|now injection Hc as <-].
  destruct (click_to_image (w g) (h g) ex ey) as [[x y]|]; [|discriminate].
  injection Hc as <-. apply refresh_debounced.
  apply (debounced_ext g); [reflexivity | reflexivity | exact Hd].
Qed.

Lemma step_debounced (kernel : R -> nat -> R) (g : Gui) (e : event) :
  debounced g -> debounced (step kernel g e).
Proof.
  intro Hd. destruct e as [| |k|ex ey|ex ey|]; cbn [step].
  - now apply refresh_debounced.
  - now apply run_after_debounced.
  - unfold _on_key. destruct (img_bgr g); [|exact Hd].
    apply refresh_debounced.
    destruct (String.eqb k "Left"), (String.eqb k "Right"),
             (String.eqb k "Up"), (String.eqb k "Down");
      (eapply debounced_ext; [| |exact Hd]; reflexivity).
  - unfold _start_drag.
    destruct (_update_center_from_click kernel (set_dragging g true) ex ey)
      as [g'|] eqn:Hc.
    + apply (update_center_debounced kernel (set_dragging g true) g' ex ey);
        [|exact Hc].
      apply (debounced_ext g); [reflexivity | reflexivity | exact Hd].
    + apply (debounced_ext g); [reflexivity | reflexivity | exact Hd].
  - unfold _drag. destruct (_dragging g); [|exact Hd].
    destruct (_update_center_from_click kernel g ex ey) as [g'|] eqn:Hc.
    + apply (update_center_debounced kernel g g' ex ey Hd Hc).
    + exact Hd.
  - apply (debounced_ext g); [reflexivity | reflexivity | exact Hd].
Qed.

(** Debouncing invariant: from a state with at most one callback outstanding
    (the initial state is one), every sequence of refresh requests, timer
    callbacks, keys, button presses, mouse motions and releases leads to a
    state with at most one callback outstanding, the one [_pending] names. *)
Theorem debounce_invariant
        (kernel : R -> nat -> R) (g : Gui) (es : list event) :
  debounced g -> debounced (run kernel g es).
Proof.
  revert g. induction es as [|e es IH]; intros g Hd; [exact Hd|].
  unfold run. cbn [fold_left]. apply IH. now apply step_debounced.
Qed.

Lemma debounce_invariant_witness :
  debounced (run cubic_coeffs init
               [EvRefresh; EvKey "Left"; EvRefresh; EvTimer; EvPress 3 4;
                EvMotion 5 6; EvRelease]).
Proof.
  apply (debounce_invariant cubic_coeffs init).
  left. split; reflexivity.
Defined.

(** A forced refresh does not cancel an outstanding callback: it clears
    [_pending] and leaves the callback in Tk's queue, so the next refresh
    request registers a second one and two callbacks are outstanding. *)
Theorem forced_refresh_keeps_callback
        (kernel : R -> nat -> R) (g : Gui) (id : nat) :
  _pending g = Some id -> after_queue g = [id] ->
  let g' := refresh kernel false (refresh kernel true g) in
  after_queue (refresh kernel true g) = [id] /\
  _pending (refresh kernel true g) = None /\
  after_queue g' = [id; after_next g] /\
  _pending g' = Some (after_next g) /\
  ~ debounced g'.
Proof.
  intros Hp Hq g'.
  assert (Hf : refresh kernel true g = _refresh_impl kernel g) by reflexivity.
  destruct (refresh_impl_pending kernel g) as [P1 [Q1 [N1 _]]].
  rewrite <- Hf in P1, Q1, N1.
  destruct (refresh_idle kernel (refresh kernel true g) P1) as [P2 [Q2 _]].
  rewrite Q1, Hq, N1 in Q2. rewrite N1 in P2. cbn [app] in Q2.
  split; [rewrite Q1; exact Hq|]. split; [exact P1|].
  split; [exact Q2|]. split; [exact P2|].
  intros [[P Q]|[id' [P Q]]]; unfold g' in *.
  - rewrite Q2 in Q. discriminate.
  - rewrite Q2 in Q. discriminate.
Qed.

Lemma forced_refresh_keeps_callback_witness :
  after_queue (refresh cubic_coeffs false
                 (refresh cubic_coeffs true
                    (refresh cubic_coeffs false init)))
  = [0%nat; after_next (refresh cubic_coeffs false init)].
Proof.
  exact (proj1 (proj2 (proj2
           (forced_refresh_keeps_callback cubic_coeffs
              (refresh cubic_coeffs false init) 0 eq_refl eq_refl)))).
Defined.

(* ================================================================= *)
(** ** Symmetry of the sweep *)

(** The sweep is symmetric about the direction [shift]: column x sits at the
    angle shift - 2*pi*x/w and column w - x at the angle shift + 2*pi*x/w, on
    the same circle; column 0 sits at the angle [shift] itself. *)
Theorem build_map_mirror_columns
        (unw_w unw_h : Z) (cx cy rmin rmax shift yA yB yC : R) (x y : Z) :
  (0 < x < unw_w)%Z -> (0 <= y < unw_h)%Z ->
  let m := build_map unw_w unw_h cx cy rmin rmax shift yA yB yC in
  let t := IZR y / IZR unw_h in
  let radius := (yA * t ^ 2 + yB * t + yC) * (rmax - rmin) + rmin in
  let theta := 2 * PI * IZR x / IZR unw_w in
  Np.item (fst m) y x = cx + radius * cos (shift - theta) /\
  Np.item (snd m) y x = cy + radius * sin (shift - theta) /\
  Np.item (fst m) y (unw_w - x) = cx + radius * cos (shift + theta) /\
  Np.item (snd m) y (unw_w - x) = cy + radius * sin (shift + theta) /\
  Np.item (fst m) y 0 = cx + radius * cos shift /\
  Np.item (snd m) y 0 = cy + radius * sin shift.
Proof.
  intros Hx Hy m t radius theta.
  assert (Hx1 : (0 <= x < unw_w)%Z) by lia.
  assert (Hx2 : (0 <= unw_w - x < unw_w)%Z) by lia.
  assert (Hx0 : (0 <= 0 < unw_w)%Z) by lia.
  assert (HwR : IZR unw_w <> 0) by (apply not_0_IZR; lia).
  destruct (build_map_item unw_w unw_h cx cy rmin rmax shift yA yB yC
              x y Hx1 Hy) as [A1 A2].
  destruct (build_map_item unw_w unw_h cx cy rmin rmax shift yA yB yC
              (unw_w - x) y Hx2 Hy) as [B1 B2].
  destruct (build_map_item unw_w unw_h cx cy rmin rmax shift yA yB yC
              0 y Hx0 Hy) as [C1 C2].
  cbv zeta in A1, A2, B1, B2, C1, C2.
  fold t in A1, A2, B1, B2, C1, C2. fold radius in A1, A2, B1, B2, C1, C2.
  fold m in A1, A2, B1, B2, C1, C2.
  assert (Ea : 0 - IZR x / IZR unw_w * (2 * PI) + shift = shift - theta)
    by (unfold theta; field; exact HwR).
  assert (Eb : 0 - IZR (unw_w - x) / IZR unw_w * (2 * PI) + shift
               = (shift + theta) + 2 * IZR (-1) * PI).
  { unfold theta. rewrite minus_IZR. field. exact HwR. }
  assert (Ec : 0 - IZR 0 / IZR unw_w * (2 * PI) + shift = shift)
    by (field; exact HwR).
  rewrite Ea in A1, A2. rewrite Eb in B1, B2.
  rewrite (cos_Zperiod (shift + theta) (-1)) in B1.
  rewrite (sin_Zperiod (shift + theta) (-1)) in B2.
  rewrite Ec in C1, C2.
  repeat split; assumption.
Qed.

Lemma build_map_mirror_columns_witness :
  Np.item (fst (build_map 8 2 100 90 10 50 0 Y_WARP_A Y_WARP_B Y_WARP_C)) 1 (8 - 3)
  = 100 + ((Y_WARP_A * (IZR 1 / IZR 2) ^ 2 + Y_WARP_B * (IZR 1 / IZR 2)
            + Y_WARP_C) * (50 - 10) + 10)
          * cos (0 + 2 * PI * IZR 3 / IZR 8).
Proof.
  exact (proj1 (proj2 (proj2
           (build_map_mirror_columns 8 2 100 90 10 50 0
              Y_WARP_A Y_WARP_B Y_WARP_C 3 1 ltac:(lia) ltac:(lia))))).
Defined.
